(** * Matrix validation layer of stan/math/matrix_error_handling.hpp

    A shallow embedding of the predicates of
    [src/stan/math/matrix_error_handling.hpp] ([check_size_match],
    [check_symmetric], [check_pos_definite], the two [check_cov_matrix]
    overloads, [check_corr_matrix], the two [check_not_nan] overloads and
    [check_finite]) at the instantiation [T_y = T_result = double], together
    with the properties the specification states about them.

    Scalars are IEEE binary64 numbers (Rocq's primitive [float]), so that
    comparisons with NaN behave as they do in C++.  Dimensions and loop
    counters ([size_type], [int]) are natural numbers: the embedding does not
    model counters that overflow, i.e. it covers containers of fewer than
    2^31 rows and columns. *)

From Stdlib Require Import Floats ZArith PArith List String Bool Arith PeanoNat Lia
  DecimalString.
Import ListNotations.

Local Open Scope string_scope.
Local Open Scope list_scope.
Local Open Scope nat_scope.

(** ** Containers *)

(** [Eigen::Matrix<double,Dynamic,Dynamic>], seen through the interface the
    header uses: [rows()], [cols()] and the element read [y(i,j)]. *)
Record Matrix : Type := mkMatrix {
  rows : nat;
  cols : nat;
  coeffRef : nat -> nat -> float
}.

(** [Eigen::Matrix<double,Dynamic,1>]: [rows()] is the length, [y[i]] the
    i-th element. *)
Definition Vector : Type := list float.

(** A matrix given by its rows; entries outside the rows read as [0.0]. *)
Definition of_rows (r c : nat) (l : list (list float)) : Matrix :=
  mkMatrix r c (fun i j => nth j (nth i l []) 0%float).

(** The identity matrix of order [n]. *)
Definition identity (n : nat) : Matrix :=
  mkMatrix n n (fun i j => if i =? j then 1%float else 0%float).

(** ** Effects

    What a call can do besides returning: hand a message to the
    error-reporting collaborator ([raise_domain_error]) and write the caller's
    output slot ([*result = tmp]).  Both are recorded, in order, in a trace. *)

(** The output slot [T_result* result]: the null pointer or an address. *)
Inductive pointer : Type :=
| null
| ptr (a : nat).

(** The offending value passed to [raise_domain_error]: a dimension
    ([size_type]) or a scalar ([T_y]). *)
Inductive value : Type :=
| VIndex (n : nat)
| VScalar (x : float).

Inductive event : Type :=
| Raise (function message : string) (val : value)
| Store (a : nat) (tmp : float).

(** Abnormal ends of a call that are not part of the contract: an element
    access outside the container (Eigen's index assertion) and a write
    through the null pointer. *)
Inductive fault : Type :=
| OutOfRange (i j : nat)
| NullDereference.

Inductive outcome (A : Type) : Type :=
| Ret (a : A)
| Throw
| Fault (f : fault).

Arguments Ret {A} a.
Arguments Throw {A}.
Arguments Fault {A} f.

(** A computation: the trace it leaves and how it ends. *)
Definition M (A : Type) : Type := (list event * outcome A)%type.

Definition ret {A} (a : A) : M A := ([], Ret a).

Definition bind {A B} (m : M A) (k : A -> M B) : M B :=
  match snd m with
  | Ret a => (fst m ++ fst (k a), snd (k a))
  | Throw => (fst m, Throw)
  | Fault f => (fst m, Fault f)
  end.

Definition emit (e : event) : M unit := ([e], Ret tt).
Definition throw {A} : M A := ([], Throw).
Definition abort {A} (f : fault) : M A := ([], Fault f).

Declare Scope comp_scope.
Delimit Scope comp_scope with comp.
Notation "x <- c1 ;; c2" := (bind c1 (fun x => c2))
  (at level 100, c1 at next level, right associativity) : comp_scope.
Notation "c1 ;; c2" := (bind c1 (fun _ => c2))
  (at level 100, right associativity) : comp_scope.
Local Open Scope comp_scope.

(** [for (i = lo; i < hi; ++i) body], where the body may leave the enclosing
    function with [return r] ([Some r]) or fall through ([None]). *)
Fixpoint for_steps {R} (steps i : nat) (body : nat -> M (option R)) : M (option R) :=
  match steps with
  | O => ret None
  | S steps' =>
      r <- body i ;;
      match r with
      | Some x => ret (Some x)
      | None => for_steps steps' (S i) body
      end
  end.

Definition for_loop {R} (lo hi : nat) (body : nat -> M (option R)) : M (option R) :=
  for_steps (hi - lo) lo body.

(** [y(i,j)] *)
Definition coeff (y : Matrix) (i j : nat) : M float :=
  if (i <? rows y) && (j <? cols y) then ret (coeffRef y i j)
  else abort (OutOfRange i j).

(** [y[i]] *)
Definition vcoeff (y : Vector) (i : nat) : M float :=
  match nth_error y i with
  | Some x => ret x
  | None => abort (OutOfRange i 0)
  end.

(** [*result = tmp] *)
Definition store (result : pointer) (tmp : float) : M unit :=
  match result with
  | null => abort NullDereference
  | ptr a => emit (Store a tmp)
  end.

(** [result != 0] *)
Definition non_null (result : pointer) : bool :=
  match result with
  | null => false
  | ptr _ => true
  end.

(** [operator<<] on a [size_type] or an [int]: the decimal digits. *)
Definition show_index (n : nat) : string :=
  NilEmpty.string_of_uint (Nat.to_uint n).

(** ** Collaborators

    What the header takes from other headers and libraries: the tolerance
    constant, the error policy, Eigen's factorization and the stream
    formatting of a scalar. *)
Class Collaborators : Type := {
  (** [CONSTRAINT_TOLERANCE], declared in stan/math/error_handling.hpp. *)
  CONSTRAINT_TOLERANCE : float;
  (** [policies::raise_domain_error(function, message, val, Policy())]:
      [Some tmp] when the policy returns the value [tmp], [None] when it
      throws. *)
  policy : string -> string -> value -> option float;
  (** [y.ldlt().vectorD()(k)]: the k-th diagonal entry of Eigen's LDLT
      factorization of [y]. *)
  ldlt_D : Matrix -> nat -> float;
  (** [operator<<] on a scalar. *)
  show_scalar : float -> string;
  (** The message template [check_positive] builds for a subject name. *)
  positive_message : string -> string
}.

Section Validator.

Context {C : Collaborators}.

(** [policies::raise_domain_error<T_result>(function, message, val, Policy())] *)
Definition raise_domain_error (function message : string) (val : value) : M float :=
  emit (Raise function message val) ;;
  match policy function message val with
  | Some tmp => ret tmp
  | None => throw
  end.

(** The block every predicate runs once it has found a violation:
<<
      T_result tmp = raise_domain_error(function, message, val, Policy());
      if (result != 0)
        *result = tmp;
      return false;
>> *)
Definition domain_failure (function message : string) (val : value)
    (result : pointer) : M bool :=
  tmp <- raise_domain_error function message val ;;
  (if non_null result then store result tmp else ret tt) ;;
  ret false.

(** [cholesky.vectorD()]: Eigen keeps the factorization in a matrix of the
    dimensions of its argument and [vectorD()] is that matrix's diagonal. *)
Definition vectorD (y : Matrix) : list float :=
  map (ldlt_D y) (seq 0 (Nat.min (rows y) (cols y))).

(** *** check_size_match (lines 17-37) *)
Definition size_match_message (j : nat) : string :=
  ("i and j must be same.  Found i=%1%, j=" ++ show_index j)%string.

Definition check_size_match (function : string) (i j : nat) (result : pointer) : M bool :=
  if negb (i =? j) then
    domain_failure function (size_match_message j) (VIndex i) result
  else ret true.

(** *** check_symmetric (lines 48-77) *)
Definition symmetric_message (name : string) (m n : nat) (ynm : float) : string :=
  (name ++ " is not symmetric. "
        ++ name ++ "[" ++ show_index m ++ "," ++ show_index n ++ "] is %1%, but "
        ++ name ++ "[" ++ show_index n ++ "," ++ show_index m ++ "] element is "
        ++ show_scalar ynm)%string.

(** The body of the inner loop of [check_symmetric]. *)
Definition symmetric_step (function : string) (y : Matrix) (name : string)
    (result : pointer) (m n : nat) : M (option bool) :=
  ymn <- coeff y m n ;;
  ynm <- coeff y n m ;;
  if (CONSTRAINT_TOLERANCE <? abs (ymn - ynm))%float then
    ynm' <- coeff y n m ;;
    ymn' <- coeff y m n ;;
    b <- domain_failure function (symmetric_message name m n ynm')
           (VScalar ymn') result ;;
    ret (Some b)
  else ret None.

Definition check_symmetric (function : string) (y : Matrix) (name : string)
    (result : pointer) : M bool :=
  let k := rows y in
  if k =? 1 then ret true
  else
    r <- for_loop 0 k (fun m =>
           for_loop (m + 1) k (symmetric_step function y name result m)) ;;
    match r with
    | Some b => ret b
    | None => ret true
    end.

(** *** check_pos_definite (lines 79-119) *)
Definition pos_definite_message (name : string) : string :=
  (name ++ " is not positive definite. " ++ name ++ "(0,0) is %1%.")%string.

Definition check_pos_definite (function : string) (y : Matrix) (name : string)
    (result : pointer) : M bool :=
  c <- (if rows y =? 1 then
          (y00 <- coeff y 0 0 ;; ret (y00 <=? CONSTRAINT_TOLERANCE)%float)
        else ret false) ;;
  if c then
    y00 <- coeff y 0 0 ;;
    domain_failure function (pos_definite_message name) (VScalar y00) result
  else
    if existsb (fun d => (d <=? CONSTRAINT_TOLERANCE)%float) (vectorD y) then
      y00 <- coeff y 0 0 ;;
      domain_failure function (pos_definite_message name) (VScalar y00) result
    else ret true.

(** Modelled from the spec: [check_positive], which the header calls on the
    row count and which is defined in another header,
    stan/math/error_handling.hpp.  The specification describes it as the
    primitive "validating a scalar is > 0" and gives it the error-signalling
    contract shared by all operations; the text of its message is the
    collaborator [positive_message]. *)
Definition check_positive (function : string) (x : nat) (name : string)
    (result : pointer) : M bool :=
  if negb (0 <? x) then
    domain_failure function (positive_message name) (VIndex x) result
  else ret true.

(** *** check_cov_matrix, the overload with a subject name (lines 130-145) *)
Definition check_cov_matrix (function : string) (y : Matrix) (name : string)
    (result : pointer) : M bool :=
  b1 <- check_size_match function (rows y) (cols y) result ;;
  if negb b1 then ret false else
  b2 <- check_positive function (rows y) "rows" result ;;
  if negb b2 then ret false else
  b3 <- check_symmetric function y "y" result ;;
  if negb b3 then ret false else
  b4 <- check_pos_definite function y "y" result ;;
  if negb b4 then ret false else
  ret true.

(** *** check_corr_matrix (lines 159-187) *)
Definition corr_message (name : string) (k : nat) : string :=
  (name ++ " is not a valid correlation matrix. "
        ++ name ++ "(" ++ show_index k ++ "," ++ show_index k
        ++ ") is %1%, but should be near 1.0")%string.

(** The body of the diagonal loop of [check_corr_matrix]. *)
Definition unit_diagonal_step (function : string) (y : Matrix) (name : string)
    (result : pointer) (k : nat) : M (option bool) :=
  ykk <- coeff y k k ;;
  if (CONSTRAINT_TOLERANCE <? abs (ykk - 1))%float then
    ykk' <- coeff y k k ;;
    b <- domain_failure function (corr_message name k) (VScalar ykk') result ;;
    ret (Some b)
  else ret None.

Definition check_corr_matrix (function : string) (y : Matrix) (name : string)
    (result : pointer) : M bool :=
  b1 <- check_size_match function (rows y) (cols y) result ;;
  if negb b1 then ret false else
  b2 <- check_positive function (rows y) "rows" result ;;
  if negb b2 then ret false else
  b3 <- check_symmetric function y "y" result ;;
  if negb b3 then ret false else
  r <- for_loop 0 (rows y) (unit_diagonal_step function y name result) ;;
  match r with
  | Some b => ret b
  | None =>
      b5 <- check_pos_definite function y "y" result ;;
      if negb b5 then ret false else
      ret true
  end.

(** *** check_not_nan, vector overload (lines 188-209) *)
Definition not_nan_message (name : string) (i : nat) : string :=
  (name ++ "[" ++ show_index i ++ "] is %1%, but must not be nan!")%string.

Definition not_nan_step (function : string) (y : Vector) (name : string)
    (result : pointer) (i : nat) : M (option bool) :=
  yi <- vcoeff y i ;;
  if is_nan yi then
    yi' <- vcoeff y i ;;
    b <- domain_failure function (not_nan_message name i) (VScalar yi') result ;;
    ret (Some b)
  else ret None.

Definition check_not_nan (function : string) (y : Vector) (name : string)
    (result : pointer) : M bool :=
  r <- for_loop 0 (List.length y) (not_nan_step function y name result) ;;
  match r with
  | Some b => ret b
  | None => ret true
  end.

(** *** check_not_nan, matrix overload (lines 212-233) *)
Definition not_nan_matrix_message (name : string) (i j : nat) : string :=
  (name ++ "[" ++ show_index i ++ "," ++ show_index j
        ++ "] is %1%, but must not be nan!")%string.

Definition not_nan_matrix_step (function : string) (y : Matrix) (name : string)
    (result : pointer) (i j : nat) : M (option bool) :=
  yij <- coeff y i j ;;
  if is_nan yij then
    yij' <- coeff y i j ;;
    b <- domain_failure function (not_nan_matrix_message name i j)
           (VScalar yij') result ;;
    ret (Some b)
  else ret None.

Definition check_not_nan_matrix (function : string) (y : Matrix) (name : string)
    (result : pointer) : M bool :=
  r <- for_loop 0 (rows y) (fun i =>
         for_loop 0 (cols y) (not_nan_matrix_step function y name result i)) ;;
  match r with
  | Some b => ret b
  | None => ret true
  end.

(** *** check_finite (lines 236-257) *)
Definition finite_message (name : string) (i : nat) : string :=
  (name ++ "[" ++ show_index i ++ "] is %1%, but must be finite!")%string.

Definition finite_step (function : string) (y : Vector) (name : string)
    (result : pointer) (i : nat) : M (option bool) :=
  yi <- vcoeff y i ;;
  if negb (is_finite yi) then
    yi' <- vcoeff y i ;;
    b <- domain_failure function (finite_message name i) (VScalar yi') result ;;
    ret (Some b)
  else ret None.

Definition check_finite (function : string) (y : Vector) (name : string)
    (result : pointer) : M bool :=
  r <- for_loop 0 (List.length y) (finite_step function y name result) ;;
  match r with
  | Some b => ret b
  | None => ret true
  end.

(** *** check_cov_matrix, the overload without a subject name (lines 269-281) *)
Definition check_cov_matrix_Sigma (function : string) (Sigma : Matrix)
    (result : pointer) : M bool :=
  b1 <- check_size_match function (rows Sigma) (cols Sigma) result ;;
  if negb b1 then ret false else
  b2 <- check_positive function (rows Sigma) "rows" result ;;
  if negb b2 then ret false else
  b3 <- check_symmetric function Sigma "Sigma" result ;;
  if negb b3 then ret false else
  ret true.

End Validator.

(** ** Concrete collaborators, for running the predicates *)

(** A small positive tolerance: 1E-8, as the nearest binary64 number. *)
Definition tolerance_1e8 : float := 0x1.5798ee2308c3ap-27%float.

(** A policy that throws on every domain error. *)
Definition throwing_policy (function message : string) (val : value) : option float :=
  None.

(** A policy that returns NaN for every domain error instead of throwing. *)
Definition nan_policy (function message : string) (val : value) : option float :=
  Some nan.

(** The factorization's diagonal for diagonal matrices, which is the
    matrix's own diagonal; this covers every matrix of order at most 1 and
    every identity matrix.  It stands for Eigen's factorization in the runs
    below, which reach [check_pos_definite] on diagonal matrices only. *)
Definition diagonal_D (y : Matrix) (k : nat) : float := coeffRef y k k.

(** A printer that does not render the digits. *)
Definition show_elided (x : float) : string := "#".

Definition greater_than_zero_message (name : string) : string :=
  (name ++ " is %1%, but must be > 0")%string.

Definition throwing : Collaborators :=
  {| CONSTRAINT_TOLERANCE := tolerance_1e8;
     policy := throwing_policy;
     ldlt_D := diagonal_D;
     show_scalar := show_elided;
     positive_message := greater_than_zero_message |}.

Definition returning_nan : Collaborators :=
  {| CONSTRAINT_TOLERANCE := tolerance_1e8;
     policy := nan_policy;
     ldlt_D := diagonal_D;
     show_scalar := show_elided;
     positive_message := greater_than_zero_message |}.

(** Inputs of the scenarios. *)
Definition nan_1x1 : Matrix := of_rows 1 1 [[nan]].
Definition five_1x1 : Matrix := of_rows 1 1 [[5%float]].
Definition zero_1x1 : Matrix := of_rows 1 1 [[0%float]].
Definition empty_0x0 : Matrix := of_rows 0 0 [].
Definition symmetric_2x2 : Matrix := of_rows 2 2 [[1; 2]; [2; 1]]%float.
Definition asymmetric_2x2 : Matrix := of_rows 2 2 [[1; 2]; [3; 1]]%float.
Definition nan_above_diagonal_2x2 : Matrix := of_rows 2 2 [[1; nan]; [2; 1]]%float.
Definition tall_2x1 : Matrix := of_rows 2 1 [[1]; [2]]%float.
Definition indefinite_2x2 : Matrix := of_rows 2 2 [[1; 0]; [0; -1]]%float.

(** ** Declarative criteria *)

Section Criteria.

Context {C : Collaborators}.

(** The test of [check_symmetric] at the pair [(m, n)]. *)
Definition asymmetric_at (y : Matrix) (m n : nat) : bool :=
  (CONSTRAINT_TOLERANCE <? abs (coeffRef y m n - coeffRef y n m))%float.

(** No pair above the diagonal differs from its mirror image by more than the
    tolerance. *)
Definition symmetric_within_tolerance (y : Matrix) : Prop :=
  forall m n, m < n -> n < rows y -> asymmetric_at y m n = false.

(** [(m, n)] is the first pair [check_symmetric] rejects: outer index
    ascending, inner index ascending from [m + 1]. *)
Definition first_asymmetric (y : Matrix) (m n : nat) : Prop :=
  m < n /\ n < rows y /\ asymmetric_at y m n = true /\
  forall m' n', m' < n' -> n' < rows y ->
    m' < m \/ (m' = m /\ n' < n) -> asymmetric_at y m' n' = false.

(** Row [m] holds a pair that [check_symmetric] rejects. *)
Definition row_asymmetric (y : Matrix) (m : nat) : bool :=
  existsb (asymmetric_at y m) (seq (S m) (rows y - S m)).

(** The test of the diagonal loop of [check_corr_matrix] at index [k]. *)
Definition off_unit_at (y : Matrix) (k : nat) : bool :=
  (CONSTRAINT_TOLERANCE <? abs (coeffRef y k k - 1))%float.

Definition unit_diagonal (y : Matrix) : Prop :=
  forall k, k < rows y -> off_unit_at y k = false.

Definition first_off_unit (y : Matrix) (k : nat) : Prop :=
  k < rows y /\ off_unit_at y k = true /\
  forall k', k' < k -> off_unit_at y k' = false.

(** The test [check_pos_definite] applies: the order-1 guard and the scan of
    the factorization's diagonal. *)
Definition no_factor_within_tolerance (y : Matrix) : Prop :=
  forall k, k < Nat.min (rows y) (cols y) ->
    (ldlt_D y k <=? CONSTRAINT_TOLERANCE)%float = false.

(** The two conditions under which [check_pos_definite] reports a failure. *)
Definition pos_definite_fails (y : Matrix) : bool :=
  ((rows y =? 1) && (coeffRef y 0 0 <=? CONSTRAINT_TOLERANCE)%float)
  || existsb (fun d => (d <=? CONSTRAINT_TOLERANCE)%float) (vectorD y).

Definition passes_pos_definite (y : Matrix) : Prop :=
  (rows y = 1 -> (coeffRef y 0 0 <=? CONSTRAINT_TOLERANCE)%float = false) /\
  no_factor_within_tolerance y.

(** The same criteria in the words of the specification: "exceeds
    TOLERANCE", "|M[m,n] - M[n,m]| <= TOLERANCE", "within TOLERANCE of 1.0",
    "every diagonal factor entry exceeds TOLERANCE". *)
Definition exceeds_tolerance (x : float) : Prop :=
  (CONSTRAINT_TOLERANCE <? x)%float = true.

Definition spec_symmetric (y : Matrix) : Prop :=
  forall m n, m < n -> n < rows y ->
    (abs (coeffRef y m n - coeffRef y n m) <=? CONSTRAINT_TOLERANCE)%float = true.

Definition spec_unit_diagonal (y : Matrix) : Prop :=
  forall k, k < rows y ->
    (abs (coeffRef y k k - 1) <=? CONSTRAINT_TOLERANCE)%float = true.

Definition spec_pos_definite (y : Matrix) : Prop :=
  (rows y = 1 -> exceeds_tolerance (coeffRef y 0 0)) /\
  (1 < rows y -> forall k, k < rows y -> exceeds_tolerance (ldlt_D y k)).

End Criteria.

(** ** The output slot as memory *)

Definition memory : Type := nat -> float.

Definition apply_event (e : event) (mem : memory) : memory :=
  match e with
  | Raise _ _ _ => mem
  | Store a tmp => fun b => if b =? a then tmp else mem b
  end.

(** The memory after the events of a trace, oldest first. *)
Definition apply_trace (t : list event) (mem : memory) : memory :=
  fold_left (fun m e => apply_event e m) t mem.

(** The writes of a trace: address and value, in order. *)
Definition writes (t : list event) : list (nat * float) :=
  flat_map (fun e => match e with
                     | Store a tmp => [(a, tmp)]
                     | Raise _ _ _ => []
                     end) t.

(** The messages of a trace, in order. *)
Definition raised (t : list event) : list (string * string * value) :=
  flat_map (fun e => match e with
                     | Raise f msg v => [(f, msg, v)]
                     | Store _ _ => []
                     end) t.

(** What [domain_failure] leaves in the slot. *)
Definition slot_write (result : pointer) (tmp : float) : list event :=
  match result with
  | null => []
  | ptr a => [Store a tmp]
  end.

(** ** Shapes shared by several predicates *)

Section Shapes.

Context {C : Collaborators}.

(** The vector overloads share one shape: a test [p] on the element and a
    message for the index. *)
Definition scan_step (p : float -> bool) (message : nat -> string)
    (function : string) (y : Vector) (result : pointer) (i : nat)
    : M (option bool) :=
  yi <- vcoeff y i ;;
  if p yi then
    yi' <- vcoeff y i ;;
    b <- domain_failure function (message i) (VScalar yi') result ;;
    ret (Some b)
  else ret None.

Definition scan (p : float -> bool) (message : nat -> string)
    (function : string) (y : Vector) (result : pointer) : M bool :=
  r <- for_loop 0 (List.length y) (scan_step p message function y result) ;;
  match r with
  | Some b => ret b
  | None => ret true
  end.

(** The three checks every composite predicate starts with, followed by the
    rest [k] of its body; [label] is the name it gives the matrix in
    [check_symmetric]. *)
Definition shape_checks (function : string) (y : Matrix) (label : string)
    (result : pointer) (k : M bool) : M bool :=
  b1 <- check_size_match function (rows y) (cols y) result ;;
  if negb b1 then ret false else
  b2 <- check_positive function (rows y) "rows" result ;;
  if negb b2 then ret false else
  b3 <- check_symmetric function y label result ;;
  if negb b3 then ret false else
  k.

(** [(i, j)] is the first NaN of [y] in row-major order. *)
Definition first_nan (y : Matrix) (i j : nat) : Prop :=
  i < rows y /\ j < cols y /\ is_nan (coeffRef y i j) = true /\
  forall i' j', i' < rows y -> j' < cols y ->
    i' < i \/ (i' = i /\ j' < j) -> is_nan (coeffRef y i' j') = false.

(** Row [i] holds a NaN. *)
Definition row_has_nan (y : Matrix) (i : nat) : bool :=
  existsb (fun j => is_nan (coeffRef y i j)) (seq 0 (cols y)).

End Shapes.

(** ** The discipline of the output slot *)

Definition returned_false (b : bool) : Prop := b = false.
Definition left_false (r : option bool) : Prop := r = Some false.
Definition never {A : Type} (a : A) : Prop := False.

Section Discipline.

Context {C : Collaborators}.

Variable result : pointer.

(** The four ways a computation of this layer can end.  [failed] tells the
    values that report a violation ([false], or [return false] from inside a
    loop). *)
Inductive disciplined {A : Type} (failed : A -> Prop) : M A -> Prop :=
| disciplined_quiet a :
    ~ failed a -> disciplined failed ([], Ret a)
| disciplined_failure function message val tmp a :
    policy function message val = Some tmp -> failed a ->
    disciplined failed
      (Raise function message val :: slot_write result tmp, Ret a)
| disciplined_throw function message val :
    policy function message val = None ->
    disciplined failed ([Raise function message val], Throw)
| disciplined_out_of_range i j :
    disciplined failed ([], Fault (OutOfRange i j)).

(** How a call uses the output slot. *)
Definition slot_use (m : M bool) : Prop :=
  snd m <> Fault NullDereference /\
  (writes (fst m) <> [] <-> snd m = Ret false /\ result <> null) /\
  (forall a tmp, In (a, tmp) (writes (fst m)) ->
     result = ptr a /\ writes (fst m) = [(a, tmp)] /\
     exists f message val,
       In (f, message, val) (raised (fst m)) /\
       policy f message val = Some tmp) /\
  (snd m = Ret true -> fst m = []) /\
  (snd m = Ret true \/ result = null ->
   forall mem, apply_trace (fst m) mem = mem).

End Discipline.

(** ** Further vocabulary *)

(** A vector seen as a matrix of one column. *)
Definition column (v : Vector) : Matrix :=
  mkMatrix (List.length v) 1 (fun i _ => nth i v 0%float).

Section Calls.

Context {C : Collaborators}.

(** The nine predicates of the header, called on the same arguments. *)
Definition layer_calls (function name : string) (result : pointer)
    (i j : nat) (y : Matrix) (v : Vector) : list (M bool) :=
  [ check_size_match function i j result;
    check_symmetric function y name result;
    check_pos_definite function y name result;
    check_cov_matrix function y name result;
    check_cov_matrix_Sigma function y result;
    check_corr_matrix function y name result;
    check_not_nan function v name result;
    check_not_nan_matrix function y name result;
    check_finite function v name result ].

End Calls.


(** The same collaborators with another tolerance. *)
Definition with_tolerance (C : Collaborators) (t : float) : Collaborators :=
  {| CONSTRAINT_TOLERANCE := t;
     policy := @policy C;
     ldlt_D := @ldlt_D C;
     show_scalar := @show_scalar C;
     positive_message := @positive_message C |}.

(** Inputs of the further scenarios. *)
Definition mirrored_with_infinities : Matrix :=
  of_rows 2 2 [[nan; infinity]; [infinity; 0]]%float.
Definition wide_2x3 : Matrix :=
  of_rows 2 3 [[9; 2; 7]; [3; nan; 7]]%float.

(** A computation with the writes to the output slot left out of its
    trace. *)
Definition without_stores (t : list event) : list event :=
  filter (fun e => match e with
                   | Raise _ _ _ => true
                   | Store _ _ => false
                   end) t.

Definition forget_stores {A} (m : M A) : M A := (without_stores (fst m), snd m).

(** A call reports at most one domain error, and reports one exactly when it
    returns false or the policy throws. *)
Definition reports_once (m : M bool) : Prop :=
  List.length (raised (fst m)) <= 1 /\
  (raised (fst m) <> [] <-> snd m = Ret false \/ snd m = Throw).

(** ** The computation monad *)

Example show_index_decimal :
  show_index 0 = "0" /\ show_index 7 = "7" /\ show_index 120 = "120".
Proof. repeat split. Qed.

Lemma bind_ret_l {A B} (a : A) (k : A -> M B) : bind (ret a) k = k a.
Proof. unfold bind, ret; simpl. destruct (k a); reflexivity. Qed.

Lemma bind_ret_r {A} (m : M A) : bind m ret = m.
Proof.
  destruct m as [t [a | | f]]; unfold bind, ret; simpl;
    rewrite ?app_nil_r; reflexivity.
Qed.

Lemma bind_assoc {A B D} (m : M A) (k : A -> M B) (h : B -> M D) :
  bind (bind m k) h = bind m (fun a => bind (k a) h).
Proof.
  destruct m as [t [a | | f]]; unfold bind; simpl; try reflexivity.
  destruct (k a) as [t' [b | | f]]; simpl; rewrite ?app_assoc; reflexivity.
Qed.

(** A loop whose iterations all fall through falls through. *)
Lemma for_steps_none {R} (body : nat -> M (option R)) steps i :
  (forall j, i <= j -> j < i + steps -> body j = ret None) ->
  for_steps steps i body = ret None.
Proof.
  revert i; induction steps as [|steps IH]; intros i Hall; simpl.
  - reflexivity.
  - rewrite (Hall i) by lia. rewrite bind_ret_l.
    apply IH. intros j H1 H2. apply Hall; lia.
Qed.

(** A loop ends as its first iteration that does not fall through. *)
Lemma for_steps_first {R} (body : nat -> M (option R)) steps i j :
  i <= j -> j < i + steps ->
  (forall j', i <= j' -> j' < j -> body j' = ret None) ->
  snd (body j) <> Ret None ->
  for_steps steps i body = body j.
Proof.
  revert i; induction steps as [|steps IH]; intros i Hij Hj Hbefore Hstop.
  - lia.
  - simpl. destruct (Nat.eq_dec i j) as [->|Hne].
    + destruct (body j) as [t [[x|] | | f]]; unfold bind, ret; simpl in *;
        rewrite ?app_nil_r; try reflexivity; congruence.
    + rewrite (Hbefore i) by lia. rewrite bind_ret_l.
      apply IH; try lia; try assumption.
      intros j' H1 H2. apply Hbefore; lia.
Qed.

(** ** Comparisons of binary64 numbers *)

Lemma SFcompare_antisym (a b : spec_float) :
  SFcompare b a = option_map CompOpp (SFcompare a b).
Proof.
  destruct a as [sa|sa| |sa ma ea], b as [sb|sb| |sb mb eb]; simpl;
    try reflexivity;
    try (destruct sa; reflexivity); try (destruct sb; reflexivity);
    try (destruct sa, sb; reflexivity).
  destruct sa, sb; simpl; try reflexivity;
    rewrite (Z.compare_antisym ea eb);
    destruct (ea ?= eb)%Z; simpl; try reflexivity;
    replace (PosDef.Pos.compare_cont Eq mb ma)
      with (CompOpp (PosDef.Pos.compare_cont Eq ma mb))
      by (exact (Pos.compare_cont_antisym ma mb Eq));
    reflexivity.
Qed.

(** Two numbers that are not NaN are comparable. *)
Lemma not_nan_comparable (x t : float) :
  is_nan x = false -> is_nan t = false ->
  exists c, SFcompare (Prim2SF x) (Prim2SF t) = Some c.
Proof.
  unfold is_nan. rewrite !FloatAxioms.eqb_spec. unfold SFeqb.
  destruct (Prim2SF x) as [sa|sa| |sa ma ea], (Prim2SF t) as [sb|sb| |sb mb eb];
    simpl; intros Hx Ht; try discriminate; eauto.
Qed.

Lemma ltb_true_leb_false (t x : float) :
  (t <? x)%float = true -> (x <=? t)%float = false.
Proof.
  rewrite FloatAxioms.ltb_spec, FloatAxioms.leb_spec. unfold SFltb, SFleb.
  rewrite (SFcompare_antisym (Prim2SF t) (Prim2SF x)).
  destruct (SFcompare (Prim2SF t) (Prim2SF x)) as [[| |]|]; simpl; congruence.
Qed.

Lemma leb_true_ltb_false (a t : float) :
  (a <=? t)%float = true -> (t <? a)%float = false.
Proof.
  rewrite FloatAxioms.ltb_spec, FloatAxioms.leb_spec. unfold SFltb, SFleb.
  rewrite (SFcompare_antisym (Prim2SF a) (Prim2SF t)).
  destruct (SFcompare (Prim2SF a) (Prim2SF t)) as [[| |]|]; simpl; congruence.
Qed.

Lemma leb_false_ltb_true (x t : float) :
  is_nan x = false -> is_nan t = false ->
  (x <=? t)%float = false -> (t <? x)%float = true.
Proof.
  intros Hx Ht. destruct (not_nan_comparable x t Hx Ht) as [c Hc].
  rewrite FloatAxioms.ltb_spec, FloatAxioms.leb_spec. unfold SFltb, SFleb.
  rewrite (SFcompare_antisym (Prim2SF x) (Prim2SF t)), Hc.
  destruct c; simpl; congruence.
Qed.

Lemma ltb_false_leb_true (a t : float) :
  is_nan a = false -> is_nan t = false ->
  (t <? a)%float = false -> (a <=? t)%float = true.
Proof.
  intros Ha Ht. destruct (not_nan_comparable a t Ha Ht) as [c Hc].
  rewrite FloatAxioms.ltb_spec, FloatAxioms.leb_spec. unfold SFltb, SFleb.
  rewrite (SFcompare_antisym (Prim2SF a) (Prim2SF t)), Hc.
  destruct c; simpl; congruence.
Qed.

Lemma not_leb_iff_ltb (x t : float) :
  is_nan x = false -> is_nan t = false ->
  ((x <=? t)%float = false <-> (t <? x)%float = true).
Proof.
  intros Hx Ht. split.
  - apply leb_false_ltb_true; assumption.
  - apply ltb_true_leb_false.
Qed.

Lemma not_ltb_iff_leb (a t : float) :
  is_nan a = false -> is_nan t = false ->
  ((t <? a)%float = false <-> (a <=? t)%float = true).
Proof.
  intros Ha Ht. split.
  - apply ltb_false_leb_true; assumption.
  - apply leb_true_ltb_false.
Qed.

(** ** Bounded search *)

(** A test over an interval of indices either fails everywhere or has a
    first index at which it holds. *)
Lemma first_true (p : nat -> bool) (lo hi : nat) :
  (forall j, lo <= j -> j < hi -> p j = false) \/
  (exists j, lo <= j /\ j < hi /\ p j = true /\
     forall j', lo <= j' -> j' < j -> p j' = false).
Proof.
  induction hi as [|hi IH].
  - left; intros; lia.
  - destruct IH as [Hall|(j & H1 & H2 & H3 & H4)].
    + destruct (le_lt_dec lo hi) as [Hle|Hgt].
      * destruct (p hi) eqn:Hp.
        -- right. exists hi. repeat split; try lia; try assumption.
        -- left. intros j H1 H2.
           destruct (Nat.eq_dec j hi) as [->|Hne]; [exact Hp | apply Hall; lia].
      * left; intros; lia.
    + right. exists j. repeat split; try lia; assumption.
Qed.

(** ** Running the building blocks *)

Section Blocks.

Context {C : Collaborators}.

Lemma domain_failure_run function message val result :
  domain_failure function message val result =
  match policy function message val with
  | Some tmp => (Raise function message val :: slot_write result tmp, Ret false)
  | None => ([Raise function message val], Throw)
  end.
Proof.
  unfold domain_failure, raise_domain_error.
  destruct (policy function message val); destruct result; reflexivity.
Qed.

Lemma domain_failure_not_true function message val result :
  snd (domain_failure function message val result) <> Ret true.
Proof.
  rewrite domain_failure_run.
  destruct (policy function message val); simpl; discriminate.
Qed.

(** A failure inside a loop leaves the loop. *)
Lemma failure_leaves_loop function message val result :
  snd (b <- domain_failure function message val result ;; ret (Some b))
  <> Ret None.
Proof.
  rewrite domain_failure_run.
  destruct (policy function message val); unfold bind; simpl; discriminate.
Qed.

(** [return b] from inside a loop returns [b] from the function. *)
Lemma return_from_loop (m k : M bool) :
  (r <- (b <- m ;; ret (Some b)) ;;
   match r with Some b => ret b | None => k end) = m.
Proof.
  destruct m as [t [b | | f]]; unfold bind, ret; simpl;
    rewrite ?app_nil_r; reflexivity.
Qed.

(** [if (!check(...)) return false;] after a failed check. *)
Lemma failure_short_circuits function message val result (k : M bool) :
  (b <- domain_failure function message val result ;;
   if negb b then ret false else k) =
  domain_failure function message val result.
Proof.
  rewrite domain_failure_run.
  destruct (policy function message val); unfold bind, ret; simpl;
    rewrite ?app_nil_r; reflexivity.
Qed.

Lemma coeff_in_range y i j :
  i < rows y -> j < cols y -> coeff y i j = ret (coeffRef y i j).
Proof.
  intros Hi Hj. unfold coeff.
  apply Nat.ltb_lt in Hi; apply Nat.ltb_lt in Hj. rewrite Hi, Hj. reflexivity.
Qed.

Lemma vcoeff_in_range (y : Vector) i x :
  nth_error y i = Some x -> vcoeff y i = ret x.
Proof. intros H. unfold vcoeff. rewrite H. reflexivity. Qed.

End Blocks.

(** Closes a goal whose hypothesis [H] says that a failure returned true. *)
Ltac failure_is_not_success H :=
  exfalso; exact (domain_failure_not_true _ _ _ _ H).

(** ** check_symmetric *)

Section Symmetric.

Context {C : Collaborators}.

Lemma row_asymmetric_false y m :
  row_asymmetric y m = false <->
  (forall n, m < n -> n < rows y -> asymmetric_at y m n = false).
Proof.
  unfold row_asymmetric. split.
  - intros Hex n H1 H2.
    destruct (asymmetric_at y m n) eqn:Hn; [|reflexivity].
    assert (Hin : In n (seq (S m) (rows y - S m))) by (apply in_seq; lia).
    assert (Ht : existsb (asymmetric_at y m) (seq (S m) (rows y - S m)) = true)
      by (apply existsb_exists; exists n; split; assumption).
    congruence.
  - intros Hall.
    destruct (existsb (asymmetric_at y m) (seq (S m) (rows y - S m))) eqn:Hex;
      [|reflexivity].
    apply existsb_exists in Hex. destruct Hex as (n & Hin & Hn).
    apply in_seq in Hin. rewrite Hall in Hn by lia. discriminate.
Qed.

(** A matrix passes the symmetry test or has a first rejected pair. *)
Lemma symmetric_or_first_asymmetric y :
  symmetric_within_tolerance y \/ exists m n, first_asymmetric y m n.
Proof.
  destruct (first_true (row_asymmetric y) 0 (rows y))
    as [Hall|(m & _ & Hm & Hrow & Hbefore)].
  - left. intros m n H1 H2.
    assert (Hr : row_asymmetric y m = false) by (apply Hall; lia).
    apply (proj1 (row_asymmetric_false y m) Hr); assumption.
  - right. exists m.
    destruct (first_true (asymmetric_at y m) (S m) (rows y))
      as [Hnone|(n & H1 & H2 & H3 & H4)].
    + assert (Hr : row_asymmetric y m = false).
      { apply row_asymmetric_false. intros n H1 H2. apply Hnone; lia. }
      congruence.
    + exists n. unfold first_asymmetric. repeat split; try lia; try assumption.
      intros m' n' H5 H6 [Hlt|[-> Hlt]].
      * assert (Hr : row_asymmetric y m' = false) by (apply Hbefore; lia).
        apply (proj1 (row_asymmetric_false y m') Hr); assumption.
      * apply H4; lia.
Qed.

Lemma first_asymmetric_not_symmetric y m n :
  first_asymmetric y m n -> ~ symmetric_within_tolerance y.
Proof.
  intros (H1 & H2 & H3 & _) Hsym. rewrite Hsym in H3 by assumption. discriminate.
Qed.

Lemma symmetric_step_run function y name result m n :
  m < rows y -> n < rows y -> rows y <= cols y ->
  symmetric_step function y name result m n =
  if asymmetric_at y m n then
    (b <- domain_failure function (symmetric_message name m n (coeffRef y n m))
            (VScalar (coeffRef y m n)) result ;;
     ret (Some b))
  else ret None.
Proof.
  intros Hm Hn Hsq. unfold symmetric_step, asymmetric_at.
  rewrite (coeff_in_range y m n) by lia.
  rewrite (coeff_in_range y n m) by lia.
  rewrite !bind_ret_l.
  destruct (CONSTRAINT_TOLERANCE <? abs (coeffRef y m n - coeffRef y n m))%float;
    reflexivity.
Qed.

Lemma symmetric_row_pass function y name result m :
  rows y <= cols y ->
  (forall n, m < n -> n < rows y -> asymmetric_at y m n = false) ->
  for_loop (m + 1) (rows y) (symmetric_step function y name result m) = ret None.
Proof.
  intros Hsq Hrow. unfold for_loop. apply for_steps_none.
  intros n H1 H2. rewrite symmetric_step_run by lia.
  rewrite Hrow by lia. reflexivity.
Qed.

Lemma symmetric_row_fail function y name result m n :
  rows y <= cols y -> first_asymmetric y m n ->
  for_loop (m + 1) (rows y) (symmetric_step function y name result m) =
  (b <- domain_failure function (symmetric_message name m n (coeffRef y n m))
          (VScalar (coeffRef y m n)) result ;;
   ret (Some b)).
Proof.
  intros Hsq (H1 & H2 & H3 & H4). unfold for_loop.
  assert (Hstep : symmetric_step function y name result m n =
    (b <- domain_failure function (symmetric_message name m n (coeffRef y n m))
            (VScalar (coeffRef y m n)) result ;;
     ret (Some b)))
    by (rewrite symmetric_step_run by lia; rewrite H3; reflexivity).
  rewrite (for_steps_first _ _ _ n); try lia.
  - exact Hstep.
  - intros n' H5 H6. rewrite symmetric_step_run by lia.
    rewrite (H4 m n') by lia. reflexivity.
  - rewrite Hstep. apply failure_leaves_loop.
Qed.

(** Matrices of at most one row pass without a single comparison. *)
Lemma check_symmetric_small function y name result :
  rows y <= 1 -> check_symmetric function y name result = ret true.
Proof.
  intros Hk. unfold check_symmetric.
  destruct (rows y) as [|[|k]] eqn:Hr; try lia; reflexivity.
Qed.

Lemma check_symmetric_pass function y name result :
  rows y <= cols y -> symmetric_within_tolerance y ->
  check_symmetric function y name result = ret true.
Proof.
  intros Hsq Hsym. unfold check_symmetric.
  destruct (rows y =? 1); [reflexivity|].
  unfold for_loop at 1. rewrite for_steps_none.
  - rewrite bind_ret_l. reflexivity.
  - intros m H1 H2. apply symmetric_row_pass; [assumption|].
    intros n H3 H4. apply Hsym; assumption.
Qed.

Lemma check_symmetric_fail function y name result m n :
  rows y <= cols y -> first_asymmetric y m n ->
  check_symmetric function y name result =
  domain_failure function (symmetric_message name m n (coeffRef y n m))
    (VScalar (coeffRef y m n)) result.
Proof.
  intros Hsq Hfirst. pose proof Hfirst as (H1 & H2 & H3 & H4).
  unfold check_symmetric.
  destruct (rows y =? 1) eqn:Hk; [apply Nat.eqb_eq in Hk; lia|].
  unfold for_loop at 1.
  rewrite (for_steps_first _ _ _ m); try lia.
  - rewrite (symmetric_row_fail function y name result m n Hsq Hfirst).
    apply return_from_loop.
  - intros m' H5 H6. apply symmetric_row_pass; [assumption|].
    intros n' H7 H8. apply H4; lia.
  - rewrite (symmetric_row_fail function y name result m n Hsq Hfirst).
    apply failure_leaves_loop.
Qed.

End Symmetric.

(** ** check_pos_definite *)

Section PosDefinite.

Context {C : Collaborators}.

Lemma vectorD_scan_false y :
  existsb (fun d => (d <=? CONSTRAINT_TOLERANCE)%float) (vectorD y) = false <->
  no_factor_within_tolerance y.
Proof.
  unfold vectorD, no_factor_within_tolerance. split.
  - intros Hex k Hk.
    destruct (ldlt_D y k <=? CONSTRAINT_TOLERANCE)%float eqn:Hd; [|reflexivity].
    assert (Ht : existsb (fun d => (d <=? CONSTRAINT_TOLERANCE)%float)
                   (map (ldlt_D y) (seq 0 (Nat.min (rows y) (cols y)))) = true).
    { apply existsb_exists. exists (ldlt_D y k). split; [|exact Hd].
      apply in_map. apply in_seq. lia. }
    congruence.
  - intros Hall.
    destruct (existsb _ _) eqn:Hex; [|reflexivity].
    apply existsb_exists in Hex. destruct Hex as (d & Hin & Hd).
    apply in_map_iff in Hin. destruct Hin as (k & <- & Hk).
    apply in_seq in Hk. rewrite Hall in Hd by lia. discriminate.
Qed.

Lemma vectorD_scan_true_nonempty y :
  existsb (fun d => (d <=? CONSTRAINT_TOLERANCE)%float) (vectorD y) = true ->
  0 < rows y /\ 0 < cols y.
Proof.
  intros Hex. apply existsb_exists in Hex. destruct Hex as (d & Hin & _).
  unfold vectorD in Hin. apply in_map_iff in Hin. destruct Hin as (k & _ & Hk).
  apply in_seq in Hk. lia.
Qed.

Lemma pos_definite_fails_false y :
  pos_definite_fails y = false <-> passes_pos_definite y.
Proof.
  unfold pos_definite_fails, passes_pos_definite.
  rewrite orb_false_iff, andb_false_iff, vectorD_scan_false, Nat.eqb_neq.
  split.
  - intros [[Hr|Hle] Hd]; (split; [intros; congruence || assumption | assumption]).
  - intros [Hone Hd]. split; [|assumption].
    destruct (Nat.eq_dec (rows y) 1) as [Heq|Hne]; [right; auto | left; assumption].
Qed.

(** What [check_pos_definite] does on every matrix it can read at [(0,0)]
    when it has one row: it fails with the message about entry [(0,0)] or
    succeeds silently. *)
Lemma check_pos_definite_run function y name result :
  (rows y = 1 -> 0 < cols y) ->
  check_pos_definite function y name result =
  if pos_definite_fails y then
    domain_failure function (pos_definite_message name)
      (VScalar (coeffRef y 0 0)) result
  else ret true.
Proof.
  intros Hcol. unfold check_pos_definite, pos_definite_fails.
  destruct (rows y =? 1) eqn:Hr.
  - apply Nat.eqb_eq in Hr.
    rewrite (coeff_in_range y 0 0) by lia. rewrite !bind_ret_l.
    destruct (coeffRef y 0 0 <=? CONSTRAINT_TOLERANCE)%float; simpl.
    + reflexivity.
    + destruct (existsb _ _); reflexivity.
  - rewrite bind_ret_l. simpl.
    destruct (existsb _ _) eqn:Hex; [|reflexivity].
    destruct (vectorD_scan_true_nonempty y Hex) as [H1 H2].
    rewrite (coeff_in_range y 0 0) by lia. rewrite bind_ret_l. reflexivity.
Qed.

(** On any matrix whatever, [check_pos_definite] ends in one of three ways. *)
Lemma check_pos_definite_outcomes function y name result :
  check_pos_definite function y name result = ret true \/
  check_pos_definite function y name result =
    domain_failure function (pos_definite_message name)
      (VScalar (coeffRef y 0 0)) result \/
  check_pos_definite function y name result = abort (OutOfRange 0 0).
Proof.
  destruct (Nat.eq_dec (rows y) 1) as [Hr|Hr].
  - destruct (cols y) as [|c] eqn:Hc.
    + right; right. unfold check_pos_definite, coeff.
      rewrite Hr, Hc. reflexivity.
    + rewrite check_pos_definite_run by lia.
      destruct (pos_definite_fails y); auto.
  - rewrite check_pos_definite_run by (intros; contradiction).
    destruct (pos_definite_fails y); auto.
Qed.

Lemma check_pos_definite_true_iff function y name result :
  (rows y = 1 -> 0 < cols y) ->
  snd (check_pos_definite function y name result) = Ret true <->
  passes_pos_definite y.
Proof.
  intros Hcol. rewrite check_pos_definite_run by assumption.
  rewrite <- pos_definite_fails_false.
  destruct (pos_definite_fails y).
  - split; [|discriminate]. intros H.
    failure_is_not_success H.
  - split; reflexivity.
Qed.

Lemma passes_pos_definite_order_1 y :
  rows y = cols y -> rows y = 1 -> ldlt_D y 0 = coeffRef y 0 0 ->
  (passes_pos_definite y <->
   (coeffRef y 0 0 <=? CONSTRAINT_TOLERANCE)%float = false).
Proof.
  intros Hsq Hr HD. unfold passes_pos_definite, no_factor_within_tolerance.
  rewrite <- Hsq, Hr. simpl. split.
  - intros [H _]. apply H. reflexivity.
  - intros H. split; [intros _; exact H|].
    intros k Hk. assert (k = 0) as -> by lia. rewrite HD. exact H.
Qed.

Lemma passes_pos_definite_order_many y :
  rows y = cols y -> rows y <> 1 ->
  (passes_pos_definite y <->
   forall k, k < rows y -> (ldlt_D y k <=? CONSTRAINT_TOLERANCE)%float = false).
Proof.
  intros Hsq Hr. unfold passes_pos_definite, no_factor_within_tolerance.
  rewrite <- Hsq, Nat.min_id. split.
  - intros [_ H]. exact H.
  - intros H. split; [intros; contradiction | exact H].
Qed.

(** Where no NaN enters a comparison, the tests of the code are the criteria
    of the specification. *)
Lemma pos_definite_iff_spec y :
  rows y = cols y ->
  is_nan CONSTRAINT_TOLERANCE = false ->
  (rows y = 1 -> ldlt_D y 0 = coeffRef y 0 0 /\ is_nan (coeffRef y 0 0) = false) ->
  (forall k, k < rows y -> is_nan (ldlt_D y k) = false) ->
  (passes_pos_definite y <-> spec_pos_definite y).
Proof.
  intros Hsq Htol Hentry Hfactors.
  unfold spec_pos_definite, exceeds_tolerance.
  destruct (Nat.eq_dec (rows y) 1) as [Hr|Hr].
  - destruct (Hentry Hr) as [HD Hn].
    rewrite (passes_pos_definite_order_1 y Hsq Hr HD),
      (not_leb_iff_ltb _ _ Hn Htol).
    split; [intros H; split; [intros _; exact H | lia] | intros [H _]; auto].
  - rewrite (passes_pos_definite_order_many y Hsq Hr). split.
    + intros H. split; [intros; contradiction|].
      intros _ k Hk. apply not_leb_iff_ltb; auto.
    + intros [_ H] k Hk.
      destruct (rows y) as [|[|r]] eqn:Hrows; try lia.
      apply not_leb_iff_ltb; auto. apply H; lia.
Qed.

Lemma symmetric_iff_spec y :
  is_nan CONSTRAINT_TOLERANCE = false ->
  (forall m n, m < n -> n < rows y ->
     is_nan (abs (coeffRef y m n - coeffRef y n m)) = false) ->
  (symmetric_within_tolerance y <-> spec_symmetric y).
Proof.
  intros Htol Hdiff.
  unfold symmetric_within_tolerance, spec_symmetric, asymmetric_at.
  split; intros H m n H1 H2; apply not_ltb_iff_leb; auto.
Qed.

Lemma unit_diagonal_iff_spec y :
  is_nan CONSTRAINT_TOLERANCE = false ->
  (forall k, k < rows y -> is_nan (abs (coeffRef y k k - 1)) = false) ->
  (unit_diagonal y <-> spec_unit_diagonal y).
Proof.
  intros Htol Hdiff. unfold unit_diagonal, spec_unit_diagonal, off_unit_at.
  split; intros H k Hk; apply not_ltb_iff_leb; auto.
Qed.

Lemma not_passes_pos_definite y :
  ~ passes_pos_definite y -> pos_definite_fails y = true.
Proof.
  intros Hn. destruct (pos_definite_fails y) eqn:Hf; [reflexivity|].
  exfalso. apply Hn. apply pos_definite_fails_false. exact Hf.
Qed.

End PosDefinite.

(** ** The contract of check_pos_definite *)

(** C1.  The code at the input where it departs from the claim: the 1x1
    matrix whose entry is NaN is accepted by [check_pos_definite], although
    NaN does not exceed the tolerance and the function is documented to
    "return true if the specified matrix is positive definite".  Both tests
    of the function have the form [x <= CONSTRAINT_TOLERANCE], which is
    false for NaN, so a NaN is never rejected. *)
Lemma check_pos_definite_accepts_nan :
  rows nan_1x1 = 1 /\ cols nan_1x1 = 1 /\
  @check_pos_definite throwing "f" nan_1x1 "y" null = ret true /\
  ~ @exceeds_tolerance throwing (coeffRef nan_1x1 0 0).
Proof.
  repeat split; try reflexivity.
  unfold exceeds_tolerance. vm_compute. discriminate.
Qed.

(** What the tests of [check_pos_definite] amount to.  On a square matrix
    the function succeeds exactly when it finds no value at or below the
    tolerance: for order 1 (where the factorization's diagonal is the entry
    itself) when the single entry is not [<= CONSTRAINT_TOLERANCE]; for order
    greater than 1 when no diagonal entry of the factorization is
    [<= CONSTRAINT_TOLERANCE].  Where the tolerance, the entry and the
    factors are not NaN this is the specification's "exceeds the tolerance":
    the code and the specification part only on NaN.  With a tolerance below
    5.0 the matrix [[5.0]] passes, and with a non-negative tolerance [[0.0]]
    fails. *)
Theorem check_pos_definite_criterion {C : Collaborators} function y name result :
  rows y = cols y ->
  (rows y = 1 -> ldlt_D y 0 = coeffRef y 0 0 ->
   (snd (check_pos_definite function y name result) = Ret true <->
    (coeffRef y 0 0 <=? CONSTRAINT_TOLERANCE)%float = false)) /\
  (1 < rows y ->
   (snd (check_pos_definite function y name result) = Ret true <->
    forall k, k < rows y -> (ldlt_D y k <=? CONSTRAINT_TOLERANCE)%float = false)) /\
  (is_nan CONSTRAINT_TOLERANCE = false ->
   (rows y = 1 -> ldlt_D y 0 = coeffRef y 0 0 /\ is_nan (coeffRef y 0 0) = false) ->
   (forall k, k < rows y -> is_nan (ldlt_D y k) = false) ->
   (snd (check_pos_definite function y name result) = Ret true <->
    spec_pos_definite y)) /\
  (rows y = 1 -> ldlt_D y 0 = coeffRef y 0 0 -> coeffRef y 0 0 = 5%float ->
   (CONSTRAINT_TOLERANCE <? 5)%float = true ->
   check_pos_definite function y name result = ret true) /\
  (rows y = 1 -> coeffRef y 0 0 = 0%float ->
   (0 <=? CONSTRAINT_TOLERANCE)%float = true ->
   check_pos_definite function y name result =
   domain_failure function (pos_definite_message name) (VScalar 0%float) result).
Proof.
  intros Hsq.
  assert (Hcol : rows y = 1 -> 0 < cols y) by lia.
  split; [|split; [|split; [|split]]].
  - intros Hr HD.
    rewrite check_pos_definite_true_iff by assumption.
    apply passes_pos_definite_order_1; assumption.
  - intros Hr.
    rewrite check_pos_definite_true_iff by assumption.
    apply passes_pos_definite_order_many; lia.
  - intros Htol Hentry Hfactors.
    rewrite check_pos_definite_true_iff by assumption.
    apply pos_definite_iff_spec; assumption.
  - intros Hr HD H5 Hlt.
    rewrite check_pos_definite_run by assumption.
    assert (Hp : passes_pos_definite y).
    { apply (passes_pos_definite_order_1 y Hsq Hr HD).
      rewrite H5. apply ltb_true_leb_false. exact Hlt. }
    apply pos_definite_fails_false in Hp. rewrite Hp. reflexivity.
  - intros Hr H0 Hle.
    rewrite check_pos_definite_run by assumption.
    unfold pos_definite_fails. rewrite Hr, H0, Hle. reflexivity.
Qed.

Lemma check_pos_definite_criterion_witness :
  @check_pos_definite throwing "f" five_1x1 "y" null = ret true /\
  @check_pos_definite returning_nan "f" zero_1x1 "y" (ptr 0) =
    ([Raise "f" "y is not positive definite. y(0,0) is %1%." (VScalar 0%float);
      Store 0 nan], Ret false).
Proof.
  split.
  - apply (@check_pos_definite_criterion throwing "f" five_1x1 "y" null eq_refl);
      reflexivity.
  - rewrite (proj2 (proj2 (proj2 (proj2
      (@check_pos_definite_criterion returning_nan "f" zero_1x1 "y" (ptr 0)
         eq_refl)))) eq_refl eq_refl eq_refl).
    reflexivity.
Defined.

(** ** The contract of check_symmetric *)

(** C2.  The code at the input where it departs from the claim: in the
    square matrix [[1, NaN], [2, 1]] the pair (0,1) does not satisfy
    [|M[0,1] - M[1,0]| <= CONSTRAINT_TOLERANCE], yet [check_symmetric],
    documented to "return true if the specified matrix is symmetric",
    accepts it: its test [fabs(...) > CONSTRAINT_TOLERANCE] is false when
    the difference is NaN. *)
Lemma check_symmetric_accepts_nan :
  rows nan_above_diagonal_2x2 = cols nan_above_diagonal_2x2 /\
  @check_symmetric throwing "f" nan_above_diagonal_2x2 "y" null = ret true /\
  ~ @spec_symmetric throwing nan_above_diagonal_2x2.
Proof.
  repeat split.
  intros H. specialize (H 0 1 ltac:(lia) ltac:(simpl; lia)).
  vm_compute in H. discriminate.
Qed.

(** What the test of [check_symmetric] amounts to.  On a square matrix the
    function succeeds exactly when no pair [m < n] has
    [|M[m,n] - M[n,m]| > CONSTRAINT_TOLERANCE]; where neither a difference
    nor the tolerance is NaN, this is the specification's
    [|M[m,n] - M[n,m]| <= CONSTRAINT_TOLERANCE] for every pair: the code and
    the specification part only on NaN.  For order at most 1 it succeeds
    unconditionally.  When it does not
    succeed, it reports the first offending pair in the scan order, [m]
    ascending and [n] ascending from [m + 1]: the message names both
    positions and the value at [(n,m)], and the value at [(m,n)] is the
    reported value. *)
Theorem check_symmetric_contract {C : Collaborators} function y name result :
  rows y = cols y ->
  (snd (check_symmetric function y name result) = Ret true <->
   symmetric_within_tolerance y) /\
  (rows y <= 1 -> check_symmetric function y name result = ret true) /\
  (forall m n, first_asymmetric y m n ->
     check_symmetric function y name result =
     domain_failure function (symmetric_message name m n (coeffRef y n m))
       (VScalar (coeffRef y m n)) result) /\
  (snd (check_symmetric function y name result) <> Ret true ->
   exists m n, first_asymmetric y m n) /\
  (is_nan CONSTRAINT_TOLERANCE = false ->
   (forall m n, m < n -> n < rows y ->
      is_nan (abs (coeffRef y m n - coeffRef y n m)) = false) ->
   (snd (check_symmetric function y name result) = Ret true <->
    spec_symmetric y)).
Proof.
  intros Hsq.
  assert (Hle : rows y <= cols y) by lia.
  assert (Hiff : snd (check_symmetric function y name result) = Ret true <->
                 symmetric_within_tolerance y).
  { split.
    - intros Hs. destruct (symmetric_or_first_asymmetric y)
        as [Hsym|(m & n & Hfirst)]; [assumption|].
      rewrite (check_symmetric_fail function y name result m n Hle Hfirst) in Hs.
      failure_is_not_success Hs.
    - intros Hsym. rewrite check_symmetric_pass by assumption. reflexivity. }
  split; [exact Hiff|].
  split; [apply check_symmetric_small|].
  split; [intros m n Hfirst; apply check_symmetric_fail; assumption|].
  split.
  - intros Hs. destruct (symmetric_or_first_asymmetric y) as [Hsym|Hex];
      [|assumption].
    exfalso. apply Hs. apply Hiff. exact Hsym.
  - intros Htol Hdiff. rewrite Hiff.
    apply symmetric_iff_spec; assumption.
Qed.

Lemma check_symmetric_contract_witness :
  @check_symmetric returning_nan "f" symmetric_2x2 "y" (ptr 0) = ret true /\
  @check_symmetric returning_nan "f" asymmetric_2x2 "y" (ptr 0) =
    ([Raise "f" (@symmetric_message returning_nan "y" 0 1 3%float)
        (VScalar 2%float);
      Store 0 nan], Ret false).
Proof.
  split.
  - reflexivity.
  - rewrite (proj1 (proj2 (proj2
      (@check_symmetric_contract returning_nan "f" asymmetric_2x2 "y" (ptr 0)
         eq_refl))) 0 1).
    + reflexivity.
    + unfold first_asymmetric. repeat split; simpl; lia.
Defined.

(** C8, as the specification words it, does not hold: on the matrix with two
    rows and one column [check_symmetric] reads [y(0,1)], a column the matrix
    does not have.  The loops run both indices up to the row count. *)
Lemma check_symmetric_reads_missing_column :
  rows tall_2x1 = 2 /\ cols tall_2x1 = 1 /\
  @check_symmetric throwing "f" tall_2x1 "y" null = abort (OutOfRange 0 1).
Proof. repeat split. Qed.

(** C8 (amended).  On every matrix with no more rows than columns (every
    square matrix in particular), and on every matrix with at most one row,
    each element access of [check_symmetric] is at an index pair of the
    matrix: the call does not end in an out-of-range access.  ([coeff], the
    one way the embedding reads an element, ends the call with
    [OutOfRange i j] at an index pair outside the matrix.) *)
Theorem check_symmetric_accesses_in_range {C : Collaborators}
    function y name result :
  rows y <= cols y \/ rows y <= 1 ->
  forall f, snd (check_symmetric function y name result) <> Fault f.
Proof.
  intros [Hle|Hsmall] f.
  - destruct (symmetric_or_first_asymmetric y) as [Hsym|(m & n & Hfirst)].
    + rewrite check_symmetric_pass by assumption. discriminate.
    + rewrite (check_symmetric_fail function y name result m n Hle Hfirst).
      rewrite domain_failure_run.
      destruct (policy _ _ _); discriminate.
  - rewrite check_symmetric_small by assumption. discriminate.
Qed.

Lemma check_symmetric_accesses_in_range_witness :
  rows asymmetric_2x2 <= cols asymmetric_2x2 /\
  snd (@check_symmetric throwing "f" asymmetric_2x2 "y" null)
  <> Fault (OutOfRange 0 1).
Proof.
  split; [simpl; lia|].
  apply (@check_symmetric_accesses_in_range throwing "f" asymmetric_2x2 "y" null).
  left. simpl. lia.
Defined.

(** ** The failure message of check_pos_definite *)

(** How a failure block ends, written out: the message goes to the policy;
    if the policy returns [tmp], the slot (when non-null) receives [tmp] and
    the call returns false; if the policy throws, the exception leaves the
    call. *)
Abbreviation failure_outcome function message val result :=
  (match policy function message val with
   | Some tmp =>
       (Raise function message val
          :: match result with
             | null => []
             | ptr a => [Store a tmp]
             end,
        Ret false)
   | None => ([Raise function message val], Throw)
   end) (only parsing).

(** The decimal digits of an index. *)
Abbreviation decimal n := (NilEmpty.string_of_uint (Nat.to_uint n)) (only parsing).

(** C7.  [check_pos_definite] fails whenever the single entry of a one-row
    matrix, or any diagonal factor of the factorization, whichever it is, is
    at or below the tolerance; and whenever it fails, the message it passes
    to the error-reporting collaborator is
    "<name> is not positive definite. <name>(0,0) is %1%." with the matrix's
    (0,0) entry as the value: it names entry (0,0) regardless of the factor
    that violated the tolerance.  No other message is ever raised by the
    function. *)
Theorem check_pos_definite_reports_entry_0_0 {C : Collaborators}
    function y name result :
  ((rows y = 1 /\ 0 < cols y /\
    (coeffRef y 0 0 <=? CONSTRAINT_TOLERANCE)%float = true) \/
   (exists k, k < Nat.min (rows y) (cols y) /\
      (ldlt_D y k <=? CONSTRAINT_TOLERANCE)%float = true) ->
   check_pos_definite function y name result =
   failure_outcome function
     (name ++ " is not positive definite. " ++ name ++ "(0,0) is %1%.")%string
     (VScalar (coeffRef y 0 0)) result) /\
  (forall e, In e (raised (fst (check_pos_definite function y name result))) ->
     e = (function,
          (name ++ " is not positive definite. " ++ name ++ "(0,0) is %1%.")%string,
          VScalar (coeffRef y 0 0))) /\
  (snd (check_pos_definite function y name result) = Ret false \/
   snd (check_pos_definite function y name result) = Throw ->
   raised (fst (check_pos_definite function y name result)) =
   [(function,
     (name ++ " is not positive definite. " ++ name ++ "(0,0) is %1%.")%string,
     VScalar (coeffRef y 0 0))]).
Proof.
  split.
  - intros Hfail.
    assert (Hcol : rows y = 1 -> 0 < cols y).
    { destruct Hfail as [(_ & Hc & _)|(k & Hk & _)]; intros _; lia. }
    assert (Hf : pos_definite_fails y = true).
    { destruct (pos_definite_fails y) eqn:Hf; [reflexivity|].
      apply pos_definite_fails_false in Hf. destruct Hf as [Hone Hfactors].
      destruct Hfail as [(Hr & _ & Hle)|(k & Hk & Hle)].
      - rewrite (Hone Hr) in Hle. discriminate.
      - rewrite (Hfactors k Hk) in Hle. discriminate. }
    rewrite check_pos_definite_run by assumption. rewrite Hf.
    rewrite domain_failure_run. unfold pos_definite_message.
    destruct (policy _ _ _); destruct result; reflexivity.
  - destruct (check_pos_definite_outcomes function y name result)
      as [-> | [-> | ->]].
    + split; [intros e []|]. intros [H|H]; discriminate.
    + rewrite domain_failure_run. unfold pos_definite_message.
      destruct (policy _ _ _); destruct result; simpl;
        (split; [intros e [<-|[]]; reflexivity | reflexivity]).
    + split; [intros e []|]. intros [H|H]; discriminate.
Qed.

(** In diag(1, -1) it is the second factor that is below the tolerance, and
    the message names (0,0) with the value 1. *)
Lemma check_pos_definite_reports_entry_0_0_witness :
  @check_pos_definite returning_nan "f" indefinite_2x2 "Sigma" (ptr 0) =
  ([Raise "f" "Sigma is not positive definite. Sigma(0,0) is %1%."
      (VScalar 1%float);
    Store 0 nan], Ret false).
Proof.
  rewrite (proj1 (@check_pos_definite_reports_entry_0_0 returning_nan "f"
                    indefinite_2x2 "Sigma" (ptr 0))).
  - reflexivity.
  - right. exists 1. split; [simpl; lia | reflexivity].
Defined.

(** In the 2x2 matrix diag(1, -1) it is the second factor that is below the
    tolerance; the message still names (0,0) and carries the value 1. *)
Example check_pos_definite_second_factor :
  @check_pos_definite returning_nan "f" indefinite_2x2 "Sigma" null =
  ([Raise "f" "Sigma is not positive definite. Sigma(0,0) is %1%."
      (VScalar 1%float)], Ret false).
Proof. reflexivity. Qed.

(** ** check_pos_definite on the empty matrix *)

(** C10.  On a 0x0 matrix [check_pos_definite] returns true and signals
    nothing: the order-1 branch is not taken and the factorization's diagonal
    is empty, so no factor is at or below the tolerance. *)
Theorem check_pos_definite_empty {C : Collaborators} function y name result :
  rows y = 0 -> cols y = 0 ->
  check_pos_definite function y name result = ret true /\
  (rows y =? 1) = false /\ vectorD y = [].
Proof.
  intros Hr Hc. unfold check_pos_definite, vectorD. rewrite Hr, Hc. simpl.
  repeat split.
Qed.

Lemma check_pos_definite_empty_witness :
  @check_pos_definite throwing "f" empty_0x0 "y" null = ret true.
Proof.
  apply (@check_pos_definite_empty throwing "f" empty_0x0 "y" null);
    reflexivity.
Defined.

(** ** check_not_nan and check_finite *)

Section Scans.

Context {C : Collaborators}.

Lemma check_not_nan_scan function y name result :
  check_not_nan function y name result =
  scan is_nan (not_nan_message name) function y result.
Proof. reflexivity. Qed.

Lemma check_finite_scan function y name result :
  check_finite function y name result =
  scan (fun x => negb (is_finite x)) (finite_message name) function y result.
Proof. reflexivity. Qed.

Variable p : float -> bool.
Variable message : nat -> string.
Variable function : string.
Variable result : pointer.

Lemma scan_step_run (y : Vector) i x :
  nth_error y i = Some x ->
  scan_step p message function y result i =
  if p x then
    (b <- domain_failure function (message i) (VScalar x) result ;;
     ret (Some b))
  else ret None.
Proof.
  intros Hx. unfold scan_step. rewrite (vcoeff_in_range y i x Hx).
  rewrite !bind_ret_l. reflexivity.
Qed.

Lemma scan_pass (y : Vector) :
  (forall i x, nth_error y i = Some x -> p x = false) ->
  scan p message function y result = ret true.
Proof.
  intros Hall. unfold scan, for_loop. rewrite for_steps_none.
  - rewrite bind_ret_l. reflexivity.
  - intros i _ Hi.
    destruct (nth_error y i) as [x|] eqn:Hx.
    + rewrite (scan_step_run y i x Hx), (Hall i x Hx). reflexivity.
    + apply nth_error_None in Hx. lia.
Qed.

Lemma scan_fail (y : Vector) i x :
  nth_error y i = Some x -> p x = true ->
  (forall j x', j < i -> nth_error y j = Some x' -> p x' = false) ->
  scan p message function y result =
  domain_failure function (message i) (VScalar x) result.
Proof.
  intros Hx Hp Hbefore. unfold scan, for_loop.
  assert (Hi : i < List.length y) by (apply nth_error_Some; congruence).
  assert (Hstep : scan_step p message function y result i =
            (b <- domain_failure function (message i) (VScalar x) result ;;
             ret (Some b)))
    by (rewrite (scan_step_run y i x Hx), Hp; reflexivity).
  rewrite (for_steps_first _ _ _ i); try lia.
  - rewrite Hstep. apply return_from_loop.
  - intros j _ Hj.
    destruct (nth_error y j) as [x'|] eqn:Hx'.
    + rewrite (scan_step_run y j x' Hx'), (Hbefore j x' Hj Hx'). reflexivity.
    + apply nth_error_None in Hx'. lia.
  - rewrite Hstep. apply failure_leaves_loop.
Qed.

Lemma scan_true_iff (y : Vector) :
  snd (scan p message function y result) = Ret true <->
  (forall i x, nth_error y i = Some x -> p x = false).
Proof.
  split.
  - intros Hs.
    destruct (first_true
                (fun i => match nth_error y i with
                          | Some x => p x
                          | None => false
                          end) 0 (List.length y))
      as [Hall|(i & _ & Hi & Hp & Hbefore)].
    + intros i x Hx. specialize (Hall i (Nat.le_0_l i)).
      rewrite Hx in Hall. apply Hall. apply nth_error_Some. congruence.
    + destruct (nth_error y i) as [x|] eqn:Hx; [|discriminate].
      rewrite (scan_fail y i x Hx Hp) in Hs.
      * failure_is_not_success Hs.
      * intros j x' Hj Hx'. specialize (Hbefore j (Nat.le_0_l j) Hj).
        rewrite Hx' in Hbefore. exact Hbefore.
  - intros Hall. rewrite scan_pass by assumption. reflexivity.
Qed.

End Scans.

Section MatrixScan.

Context {C : Collaborators}.

Lemma row_has_nan_false y i :
  row_has_nan y i = false <->
  (forall j, j < cols y -> is_nan (coeffRef y i j) = false).
Proof.
  unfold row_has_nan. split.
  - intros Hex j Hj.
    destruct (is_nan (coeffRef y i j)) eqn:Hn; [|reflexivity].
    assert (Ht : existsb (fun j => is_nan (coeffRef y i j)) (seq 0 (cols y)) = true)
      by (apply existsb_exists; exists j; split; [apply in_seq; lia | exact Hn]).
    congruence.
  - intros Hall.
    destruct (existsb _ _) eqn:Hex; [|reflexivity].
    apply existsb_exists in Hex. destruct Hex as (j & Hin & Hn).
    apply in_seq in Hin. rewrite Hall in Hn by lia. discriminate.
Qed.

Lemma no_nan_or_first_nan y :
  (forall i j, i < rows y -> j < cols y -> is_nan (coeffRef y i j) = false) \/
  exists i j, first_nan y i j.
Proof.
  destruct (first_true (row_has_nan y) 0 (rows y))
    as [Hall|(i & _ & Hi & Hrow & Hbefore)].
  - left. intros i j Hi Hj.
    apply (proj1 (row_has_nan_false y i)); [apply Hall; lia | assumption].
  - right. exists i.
    destruct (first_true (fun j => is_nan (coeffRef y i j)) 0 (cols y))
      as [Hnone|(j & _ & H2 & H3 & H4)].
    + assert (Hr : row_has_nan y i = false).
      { apply row_has_nan_false. intros j Hj. apply Hnone; lia. }
      congruence.
    + exists j. unfold first_nan. repeat split; try assumption.
      intros i' j' H5 H6 [Hlt|[-> Hlt]].
      * apply (proj1 (row_has_nan_false y i')); [apply Hbefore; lia | assumption].
      * apply H4; lia.
Qed.

Variable function name : string.
Variable result : pointer.

Lemma not_nan_matrix_step_run y i j :
  i < rows y -> j < cols y ->
  not_nan_matrix_step function y name result i j =
  if is_nan (coeffRef y i j) then
    (b <- domain_failure function (not_nan_matrix_message name i j)
            (VScalar (coeffRef y i j)) result ;;
     ret (Some b))
  else ret None.
Proof.
  intros Hi Hj. unfold not_nan_matrix_step.
  rewrite (coeff_in_range y i j) by assumption.
  rewrite !bind_ret_l. reflexivity.
Qed.

Lemma not_nan_row_pass y i :
  i < rows y ->
  (forall j, j < cols y -> is_nan (coeffRef y i j) = false) ->
  for_loop 0 (cols y) (not_nan_matrix_step function y name result i) = ret None.
Proof.
  intros Hi Hrow. unfold for_loop. apply for_steps_none.
  intros j _ Hj. rewrite not_nan_matrix_step_run by lia.
  rewrite Hrow by lia. reflexivity.
Qed.

Lemma not_nan_row_fail y i j :
  first_nan y i j ->
  for_loop 0 (cols y) (not_nan_matrix_step function y name result i) =
  (b <- domain_failure function (not_nan_matrix_message name i j)
          (VScalar (coeffRef y i j)) result ;;
   ret (Some b)).
Proof.
  intros (H1 & H2 & H3 & H4). unfold for_loop.
  assert (Hstep : not_nan_matrix_step function y name result i j =
    (b <- domain_failure function (not_nan_matrix_message name i j)
            (VScalar (coeffRef y i j)) result ;;
     ret (Some b)))
    by (rewrite not_nan_matrix_step_run by lia; rewrite H3; reflexivity).
  rewrite (for_steps_first _ _ _ j); try lia.
  - exact Hstep.
  - intros j' _ H6. rewrite not_nan_matrix_step_run by lia.
    rewrite (H4 i j') by lia. reflexivity.
  - rewrite Hstep. apply failure_leaves_loop.
Qed.

Lemma check_not_nan_matrix_pass y :
  (forall i j, i < rows y -> j < cols y -> is_nan (coeffRef y i j) = false) ->
  check_not_nan_matrix function y name result = ret true.
Proof.
  intros Hall. unfold check_not_nan_matrix.
  unfold for_loop at 1. rewrite for_steps_none.
  - rewrite bind_ret_l. reflexivity.
  - intros i _ Hi. apply not_nan_row_pass; [lia|].
    intros j Hj. apply Hall; lia.
Qed.

Lemma check_not_nan_matrix_fail y i j :
  first_nan y i j ->
  check_not_nan_matrix function y name result =
  domain_failure function (not_nan_matrix_message name i j)
    (VScalar (coeffRef y i j)) result.
Proof.
  intros Hfirst. pose proof Hfirst as (H1 & H2 & H3 & H4).
  unfold check_not_nan_matrix. unfold for_loop at 1.
  rewrite (for_steps_first _ _ _ i); try lia.
  - rewrite (not_nan_row_fail y i j Hfirst). apply return_from_loop.
  - intros i' _ H6. apply not_nan_row_pass; [lia|].
    intros j' Hj'. apply H4; lia.
  - rewrite (not_nan_row_fail y i j Hfirst). apply failure_leaves_loop.
Qed.

End MatrixScan.

(** C6.  [check_not_nan] (vector and matrix overload) succeeds exactly when
    no entry is NaN and [check_finite] exactly when every entry is finite.
    Otherwise each fails at the first offending entry of its scan (linear
    order for the vectors, rows outermost for the matrix): the message,
    "<name>[<i>] is %1%, but must not be nan!", "<name>[<i>,<j>] is %1%, but
    must not be nan!" or "<name>[<i>] is %1%, but must be finite!", carries
    the decimal digits of that entry's index or indices, and the reported
    value is that entry. *)
Theorem scans_report_first_violation {C : Collaborators}
    function name result (y : Vector) (Y : Matrix) :
  (snd (check_not_nan function y name result) = Ret true <->
   forall i x, nth_error y i = Some x -> is_nan x = false) /\
  (forall i x, nth_error y i = Some x -> is_nan x = true ->
     (forall j x', j < i -> nth_error y j = Some x' -> is_nan x' = false) ->
     check_not_nan function y name result =
     failure_outcome function
       (name ++ "[" ++ decimal i ++ "] is %1%, but must not be nan!")%string
       (VScalar x) result) /\
  (snd (check_finite function y name result) = Ret true <->
   forall i x, nth_error y i = Some x -> is_finite x = true) /\
  (forall i x, nth_error y i = Some x -> is_finite x = false ->
     (forall j x', j < i -> nth_error y j = Some x' -> is_finite x' = true) ->
     check_finite function y name result =
     failure_outcome function
       (name ++ "[" ++ decimal i ++ "] is %1%, but must be finite!")%string
       (VScalar x) result) /\
  (snd (check_not_nan_matrix function Y name result) = Ret true <->
   forall i j, i < rows Y -> j < cols Y -> is_nan (coeffRef Y i j) = false) /\
  (forall i j, i < rows Y -> j < cols Y -> is_nan (coeffRef Y i j) = true ->
     (forall i' j', i' < rows Y -> j' < cols Y ->
        i' < i \/ (i' = i /\ j' < j) -> is_nan (coeffRef Y i' j') = false) ->
     check_not_nan_matrix function Y name result =
     failure_outcome function
       (name ++ "[" ++ decimal i ++ "," ++ decimal j
             ++ "] is %1%, but must not be nan!")%string
       (VScalar (coeffRef Y i j)) result).
Proof.
  split; [|split; [|split; [|split; [|split]]]].
  - rewrite check_not_nan_scan. apply scan_true_iff.
  - intros i x Hx Hn Hbefore. rewrite check_not_nan_scan.
    rewrite (scan_fail _ _ _ _ y i x Hx Hn Hbefore), domain_failure_run.
    unfold not_nan_message, show_index.
    destruct (policy _ _ _); destruct result; reflexivity.
  - rewrite check_finite_scan, scan_true_iff.
    split; intros H i x Hx; specialize (H i x Hx).
    + apply negb_false_iff. exact H.
    + rewrite H. reflexivity.
  - intros i x Hx Hn Hbefore. rewrite check_finite_scan.
    rewrite (scan_fail _ _ _ _ y i x Hx).
    + rewrite domain_failure_run. unfold finite_message, show_index.
      destruct (policy _ _ _); destruct result; reflexivity.
    + rewrite Hn. reflexivity.
    + intros j x' Hj Hx'. rewrite (Hbefore j x' Hj Hx'). reflexivity.
  - split.
    + intros Hs. destruct (no_nan_or_first_nan Y) as [Hall|(i & j & Hfirst)];
        [assumption|].
      rewrite (check_not_nan_matrix_fail function name result Y i j Hfirst) in Hs.
      failure_is_not_success Hs.
    + intros Hall. rewrite check_not_nan_matrix_pass by assumption. reflexivity.
  - intros i j Hi Hj Hn Hbefore.
    assert (Hfirst : first_nan Y i j)
      by (unfold first_nan; repeat split; assumption).
    rewrite (check_not_nan_matrix_fail function name result Y i j Hfirst).
    rewrite domain_failure_run. unfold not_nan_matrix_message, show_index.
    destruct (policy _ _ _); destruct result; reflexivity.
Qed.

(** A NaN at index 10, after ten finite entries and before another NaN, is
    reported as [y[10]]. *)
Lemma scans_report_first_violation_witness :
  @check_not_nan returning_nan "f"
    [1; 1; 1; 1; 1; 1; 1; 1; 1; 1; nan; nan]%float "y" (ptr 0) =
  ([Raise "f" "y[10] is %1%, but must not be nan!" (VScalar nan); Store 0 nan],
   Ret false).
Proof.
  rewrite (proj1 (proj2 (@scans_report_first_violation returning_nan "f" "y"
                           (ptr 0)
                           [1; 1; 1; 1; 1; 1; 1; 1; 1; 1; nan; nan]%float
                           empty_0x0)) 10 nan).
  - reflexivity.
  - reflexivity.
  - reflexivity.
  - intros j x' Hj Hx'.
    do 10 (destruct j as [|j]; [inversion Hx'; reflexivity|]). lia.
Defined.

(** The first of two NaNs is the one reported, and an infinity is not
    finite. *)
Example check_not_nan_reports_index_1 :
  @check_not_nan returning_nan "f" [1; nan; nan]%float "y" (ptr 0) =
  ([Raise "f" "y[1] is %1%, but must not be nan!" (VScalar nan); Store 0 nan],
   Ret false).
Proof. reflexivity. Qed.

Example check_finite_reports_index_2 :
  @check_finite returning_nan "f" [1; 2; infinity; nan]%float "y" null =
  ([Raise "f" "y[2] is %1%, but must be finite!" (VScalar infinity)],
   Ret false).
Proof. reflexivity. Qed.

Example check_not_nan_matrix_reports_row_major :
  @check_not_nan_matrix returning_nan "f"
     (of_rows 2 2 [[1; 2]; [nan; nan]]%float) "y" null =
  ([Raise "f" "y[1,0] is %1%, but must not be nan!" (VScalar nan)], Ret false).
Proof. reflexivity. Qed.

(** ** The composite predicates *)

Section Composites.

Context {C : Collaborators}.

Lemma check_cov_matrix_shape function y name result :
  check_cov_matrix function y name result =
  shape_checks function y "y" result (check_pos_definite function y "y" result).
Proof.
  unfold check_cov_matrix, shape_checks.
  destruct (check_size_match function (rows y) (cols y) result)
    as [t1 [[|] | | f1]]; try reflexivity.
  unfold bind at 1 3; simpl. unfold bind at 1 3; simpl.
  destruct (check_positive function (rows y) "rows" result)
    as [t2 [[|] | | f2]]; try reflexivity.
  unfold bind at 1 3; simpl. unfold bind at 1 3; simpl.
  destruct (check_symmetric function y "y" result)
    as [t3 [[|] | | f3]]; try reflexivity.
  unfold bind at 1 3; simpl.
  destruct (check_pos_definite function y "y" result)
    as [t4 [[|] | | f4]]; unfold bind, ret; simpl; rewrite ?app_nil_r;
    reflexivity.
Qed.

Lemma check_cov_matrix_Sigma_shape function Sigma result :
  check_cov_matrix_Sigma function Sigma result =
  shape_checks function Sigma "Sigma" result (ret true).
Proof. reflexivity. Qed.

Lemma check_corr_matrix_shape function y name result :
  check_corr_matrix function y name result =
  shape_checks function y "y" result
    (r <- for_loop 0 (rows y) (unit_diagonal_step function y name result) ;;
     match r with
     | Some b => ret b
     | None => check_pos_definite function y "y" result
     end).
Proof.
  unfold check_corr_matrix, shape_checks.
  destruct (check_size_match function (rows y) (cols y) result)
    as [t1 [[|] | | f1]]; try reflexivity.
  unfold bind at 1 4; simpl. unfold bind at 1 4; simpl.
  destruct (check_positive function (rows y) "rows" result)
    as [t2 [[|] | | f2]]; try reflexivity.
  unfold bind at 1 4; simpl. unfold bind at 1 4; simpl.
  destruct (check_symmetric function y "y" result)
    as [t3 [[|] | | f3]]; try reflexivity.
  unfold bind at 1 4; simpl.
  destruct (for_loop 0 (rows y) (unit_diagonal_step function y name result))
    as [t4 [[b|] | | f4]]; try reflexivity.
  unfold bind at 1 3; simpl.
  destruct (check_pos_definite function y "y" result)
    as [t5 [[|] | | f5]]; unfold bind, ret; simpl; rewrite ?app_nil_r;
    reflexivity.
Qed.

Variable function : string.
Variable result : pointer.

Lemma shape_checks_not_square y label k :
  rows y <> cols y ->
  shape_checks function y label result k =
  domain_failure function (size_match_message (cols y)) (VIndex (rows y)) result.
Proof.
  intros Hne. unfold shape_checks, check_size_match.
  apply Nat.eqb_neq in Hne. rewrite Hne. simpl.
  apply failure_short_circuits.
Qed.

Lemma shape_checks_no_rows y label k :
  rows y = cols y -> rows y = 0 ->
  shape_checks function y label result k =
  domain_failure function (positive_message "rows") (VIndex 0) result.
Proof.
  intros Hsq Hr. unfold shape_checks, check_size_match, check_positive.
  rewrite <- Hsq, Nat.eqb_refl, Hr. simpl. rewrite bind_ret_l. simpl.
  apply failure_short_circuits.
Qed.

Lemma shape_checks_square y label k :
  rows y = cols y -> 0 < rows y ->
  shape_checks function y label result k =
  (b3 <- check_symmetric function y label result ;;
   if negb b3 then ret false else k).
Proof.
  intros Hsq Hr. unfold shape_checks, check_size_match, check_positive.
  rewrite <- Hsq, Nat.eqb_refl. simpl. rewrite bind_ret_l. simpl.
  apply Nat.ltb_lt in Hr. rewrite Hr. simpl. rewrite bind_ret_l. reflexivity.
Qed.

Lemma shape_checks_asymmetric y label k m n :
  rows y = cols y -> 0 < rows y -> first_asymmetric y m n ->
  shape_checks function y label result k =
  domain_failure function (symmetric_message label m n (coeffRef y n m))
    (VScalar (coeffRef y m n)) result.
Proof.
  intros Hsq Hr Hfirst. rewrite shape_checks_square by assumption.
  rewrite (check_symmetric_fail function y label result m n) by (lia || assumption).
  apply failure_short_circuits.
Qed.

Lemma shape_checks_pass y label k :
  rows y = cols y -> 0 < rows y -> symmetric_within_tolerance y ->
  shape_checks function y label result k = k.
Proof.
  intros Hsq Hr Hsym. rewrite shape_checks_square by assumption.
  rewrite check_symmetric_pass by (lia || assumption).
  rewrite bind_ret_l. reflexivity.
Qed.

(** The shape checks let the rest of the body run exactly on the square
    matrices with at least one row that pass the symmetry test. *)
Lemma shape_checks_true_iff y label k :
  snd (shape_checks function y label result k) = Ret true <->
  rows y = cols y /\ 0 < rows y /\ symmetric_within_tolerance y /\
  snd k = Ret true.
Proof.
  destruct (Nat.eq_dec (rows y) (cols y)) as [Hsq|Hne].
  - destruct (rows y) as [|r] eqn:Hr.
    + rewrite shape_checks_no_rows by congruence.
      split; [|intros (_ & H & _); lia].
      intros H. failure_is_not_success H.
    + assert (Hpos : 0 < rows y) by lia. rewrite <- Hr in *.
      destruct (symmetric_or_first_asymmetric y) as [Hsym|(m & n & Hfirst)].
      * rewrite shape_checks_pass by assumption. tauto.
      * rewrite (shape_checks_asymmetric y label k m n) by assumption.
        split.
        -- intros H. failure_is_not_success H.
        -- intros (_ & _ & Hsym & _).
           exfalso. exact (first_asymmetric_not_symmetric y m n Hfirst Hsym).
  - rewrite shape_checks_not_square by assumption.
    split; [|intros (H & _); contradiction].
    intros H. failure_is_not_success H.
Qed.

(** *** The diagonal loop of check_corr_matrix *)

Variable name : string.

Lemma unit_diagonal_or_first_off_unit y :
  unit_diagonal y \/ exists k, first_off_unit y k.
Proof.
  destruct (first_true (off_unit_at y) 0 (rows y))
    as [Hall|(k & _ & H1 & H2 & H3)].
  - left. intros k Hk. apply Hall; lia.
  - right. exists k. repeat split; try assumption.
    intros k' Hk'. apply H3; lia.
Qed.

Lemma unit_diagonal_step_run y k :
  k < rows y -> rows y = cols y ->
  unit_diagonal_step function y name result k =
  if off_unit_at y k then
    (b <- domain_failure function (corr_message name k)
            (VScalar (coeffRef y k k)) result ;;
     ret (Some b))
  else ret None.
Proof.
  intros Hk Hsq. unfold unit_diagonal_step, off_unit_at.
  rewrite (coeff_in_range y k k) by lia.
  rewrite !bind_ret_l. reflexivity.
Qed.

Lemma unit_diagonal_loop_pass y :
  rows y = cols y -> unit_diagonal y ->
  for_loop 0 (rows y) (unit_diagonal_step function y name result) = ret None.
Proof.
  intros Hsq Hall. unfold for_loop. apply for_steps_none.
  intros k _ Hk. rewrite unit_diagonal_step_run by lia.
  rewrite Hall by lia. reflexivity.
Qed.

Lemma unit_diagonal_loop_fail y k :
  rows y = cols y -> first_off_unit y k ->
  for_loop 0 (rows y) (unit_diagonal_step function y name result) =
  (b <- domain_failure function (corr_message name k)
          (VScalar (coeffRef y k k)) result ;;
   ret (Some b)).
Proof.
  intros Hsq (H1 & H2 & H3). unfold for_loop.
  assert (Hstep : unit_diagonal_step function y name result k =
    (b <- domain_failure function (corr_message name k)
            (VScalar (coeffRef y k k)) result ;;
     ret (Some b)))
    by (rewrite unit_diagonal_step_run by lia; rewrite H2; reflexivity).
  rewrite (for_steps_first _ _ _ k); try lia.
  - exact Hstep.
  - intros k' _ Hk'. rewrite unit_diagonal_step_run by lia.
    rewrite H3 by lia. reflexivity.
  - rewrite Hstep. apply failure_leaves_loop.
Qed.

End Composites.

(** ** The contract of check_cov_matrix, named overload *)

(** C4.  The code at the input where it departs from the claim: the 1x1
    matrix whose entry is NaN is square, has a row and has no pair to
    compare, but it is not positive definite (its entry does not exceed the
    tolerance); [check_cov_matrix], documented to accept only matrices that
    are "square, symmetric, and positive definite", accepts it, through the
    tests of [check_pos_definite] that are false for NaN. *)
Lemma check_cov_matrix_accepts_nan :
  rows nan_1x1 = cols nan_1x1 /\ 0 < rows nan_1x1 /\
  @spec_symmetric throwing nan_1x1 /\
  @check_cov_matrix throwing "f" nan_1x1 "Sigma" null = ret true /\
  ~ @spec_pos_definite throwing nan_1x1.
Proof.
  split; [reflexivity|]. split; [simpl; lia|].
  split; [intros m n H1 H2; simpl in H2; lia|].
  split; [reflexivity|].
  intros [H _]. specialize (H eq_refl). vm_compute in H. discriminate.
Qed.

(** What [check_cov_matrix] with a subject name amounts to.  It succeeds
    exactly when the matrix is square, has a positive row count, passes the test of
    [check_symmetric] (no pair differs by more than the tolerance) and passes
    the tests of [check_pos_definite] (no value at or below the tolerance);
    where no NaN enters these comparisons, that is: symmetric within
    tolerance and positive definite as the specification defines them.  The
    sub-checks run in this order and the first that fails ends the call with
    its own message; a matrix without rows fails at the positive-order
    check. *)
Theorem check_cov_matrix_contract {C : Collaborators} function y name result :
  (snd (check_cov_matrix function y name result) = Ret true <->
   rows y = cols y /\ 0 < rows y /\ symmetric_within_tolerance y /\
   passes_pos_definite y) /\
  (rows y <> cols y ->
   check_cov_matrix function y name result =
   domain_failure function (size_match_message (cols y)) (VIndex (rows y))
     result) /\
  (rows y = cols y -> rows y = 0 ->
   check_cov_matrix function y name result =
   domain_failure function (positive_message "rows") (VIndex 0) result) /\
  (rows y = cols y -> 0 < rows y ->
   forall m n, first_asymmetric y m n ->
   check_cov_matrix function y name result =
   domain_failure function (symmetric_message "y" m n (coeffRef y n m))
     (VScalar (coeffRef y m n)) result) /\
  (rows y = cols y -> 0 < rows y -> symmetric_within_tolerance y ->
   ~ passes_pos_definite y ->
   check_cov_matrix function y name result =
   domain_failure function (pos_definite_message "y")
     (VScalar (coeffRef y 0 0)) result) /\
  (is_nan CONSTRAINT_TOLERANCE = false ->
   (forall m n, m < n -> n < rows y ->
      is_nan (abs (coeffRef y m n - coeffRef y n m)) = false) ->
   (rows y = 1 -> ldlt_D y 0 = coeffRef y 0 0 /\ is_nan (coeffRef y 0 0) = false) ->
   (forall k, k < rows y -> is_nan (ldlt_D y k) = false) ->
   (snd (check_cov_matrix function y name result) = Ret true <->
    rows y = cols y /\ 0 < rows y /\ spec_symmetric y /\ spec_pos_definite y)).
Proof.
  rewrite check_cov_matrix_shape.
  assert (Hiff : snd (shape_checks function y "y" result
                        (check_pos_definite function y "y" result)) = Ret true <->
                 rows y = cols y /\ 0 < rows y /\ symmetric_within_tolerance y /\
                 passes_pos_definite y).
  { rewrite shape_checks_true_iff. split.
    - intros (H1 & H2 & H3 & H4). repeat split; try assumption;
        apply check_pos_definite_true_iff in H4; try lia; apply H4.
    - intros (H1 & H2 & H3 & H4). repeat split; try assumption.
      apply check_pos_definite_true_iff; [lia | assumption]. }
  split; [exact Hiff|].
  split; [apply shape_checks_not_square|].
  split; [apply shape_checks_no_rows|].
  split; [intros Hsq Hr m n Hfirst; apply shape_checks_asymmetric; assumption|].
  split.
  - intros Hsq Hr Hsym Hnpd. rewrite shape_checks_pass by assumption.
    rewrite check_pos_definite_run by lia.
    rewrite (not_passes_pos_definite y Hnpd). reflexivity.
  - intros Htol Hdiff Hentry Hfactors. rewrite Hiff. split.
    + intros (H1 & H2 & H3 & H4). repeat split; try assumption.
      * apply symmetric_iff_spec; assumption.
      * apply (pos_definite_iff_spec y H1 Htol Hentry Hfactors), H4.
      * apply (pos_definite_iff_spec y H1 Htol Hentry Hfactors), H4.
    + intros (H1 & H2 & H3 & H4). split; [assumption|]. split; [assumption|].
      split.
      * apply symmetric_iff_spec; assumption.
      * apply (pos_definite_iff_spec y H1 Htol Hentry Hfactors). exact H4.
Qed.

(** The 0x0 matrix fails at the positive-order check. *)
Lemma check_cov_matrix_contract_witness :
  @check_cov_matrix returning_nan "f" empty_0x0 "Sigma" (ptr 0) =
  ([Raise "f" (@positive_message returning_nan "rows") (VIndex 0);
    Store 0 nan], Ret false).
Proof.
  rewrite (proj1 (proj2 (proj2
    (@check_cov_matrix_contract returning_nan "f" empty_0x0 "Sigma" (ptr 0))))
    eq_refl eq_refl).
  reflexivity.
Defined.

(** ** The contract of check_cov_matrix, overload without a name *)

(** C5.  The code at the inputs where it departs from the claim.  The
    overload without a name, documented to accept only symmetric matrices,
    accepts [[1, NaN], [2, 1]], which is not symmetric within tolerance
    (the test of [check_symmetric] is false when the difference is NaN).
    And the omitted step is not the only difference between the overloads:
    the named overload does not use its name parameter but passes the
    literal "y", so on [[1, 2], [3, 1]] the same failed symmetry check is
    reported under the name "Sigma" by one and under the name "y" by the
    other. *)
Lemma check_cov_matrix_overloads_differ :
  (@check_cov_matrix_Sigma throwing "f" nan_above_diagonal_2x2 null = ret true /\
   ~ @spec_symmetric throwing nan_above_diagonal_2x2) /\
  (@check_cov_matrix_Sigma returning_nan "f" asymmetric_2x2 null =
     ([Raise "f" (@symmetric_message returning_nan "Sigma" 0 1 3%float)
         (VScalar 2%float)], Ret false) /\
   @check_cov_matrix returning_nan "f" asymmetric_2x2 "Sigma" null =
     ([Raise "f" (@symmetric_message returning_nan "y" 0 1 3%float)
         (VScalar 2%float)], Ret false) /\
   @symmetric_message returning_nan "Sigma" 0 1 3%float <>
   @symmetric_message returning_nan "y" 0 1 3%float).
Proof.
  split; [split | split; [|split]]; try reflexivity.
  - intros H. specialize (H 0 1 ltac:(lia) ltac:(simpl; lia)).
    vm_compute in H. discriminate.
  - vm_compute. discriminate.
Qed.

(** What the overload of [check_cov_matrix] without a subject name amounts
    to.  It succeeds exactly when the matrix is square, has a positive row count and
    passes the test of [check_symmetric] (no pair differs by more than the
    tolerance; symmetric within tolerance in the specification's sense where
    no NaN enters the comparisons).  The two overloads run the same size,
    positive-order and symmetry checks with the same verdicts: where one of
    these fails both end with the same report, except that the symmetry
    message names the matrix "Sigma" in this overload and "y" in the named
    one; where all three pass, this overload returns true and the named one
    goes on to [check_pos_definite]. *)
Theorem check_cov_matrix_overloads {C : Collaborators} function Sigma name result :
  (snd (check_cov_matrix_Sigma function Sigma result) = Ret true <->
   rows Sigma = cols Sigma /\ 0 < rows Sigma /\
   symmetric_within_tolerance Sigma) /\
  (rows Sigma <> cols Sigma ->
   check_cov_matrix_Sigma function Sigma result =
     domain_failure function (size_match_message (cols Sigma))
       (VIndex (rows Sigma)) result /\
   check_cov_matrix function Sigma name result =
     check_cov_matrix_Sigma function Sigma result) /\
  (rows Sigma = cols Sigma -> rows Sigma = 0 ->
   check_cov_matrix_Sigma function Sigma result =
     domain_failure function (positive_message "rows") (VIndex 0) result /\
   check_cov_matrix function Sigma name result =
     check_cov_matrix_Sigma function Sigma result) /\
  (rows Sigma = cols Sigma -> 0 < rows Sigma ->
   forall m n, first_asymmetric Sigma m n ->
   check_cov_matrix_Sigma function Sigma result =
     domain_failure function
       (symmetric_message "Sigma" m n (coeffRef Sigma n m))
       (VScalar (coeffRef Sigma m n)) result /\
   check_cov_matrix function Sigma name result =
     domain_failure function
       (symmetric_message "y" m n (coeffRef Sigma n m))
       (VScalar (coeffRef Sigma m n)) result) /\
  (snd (check_cov_matrix_Sigma function Sigma result) = Ret true ->
   check_cov_matrix_Sigma function Sigma result = ret true /\
   check_cov_matrix function Sigma name result =
     check_pos_definite function Sigma "y" result) /\
  (is_nan CONSTRAINT_TOLERANCE = false ->
   (forall m n, m < n -> n < rows Sigma ->
      is_nan (abs (coeffRef Sigma m n - coeffRef Sigma n m)) = false) ->
   (snd (check_cov_matrix_Sigma function Sigma result) = Ret true <->
    rows Sigma = cols Sigma /\ 0 < rows Sigma /\ spec_symmetric Sigma)).
Proof.
  rewrite check_cov_matrix_shape, check_cov_matrix_Sigma_shape.
  assert (Hiff : snd (shape_checks function Sigma "Sigma" result (ret true))
                 = Ret true <->
                 rows Sigma = cols Sigma /\ 0 < rows Sigma /\
                 symmetric_within_tolerance Sigma).
  { rewrite shape_checks_true_iff. simpl. tauto. }
  split; [exact Hiff|].
  split.
  { intros Hne. rewrite !shape_checks_not_square by assumption.
    split; reflexivity. }
  split.
  { intros Hsq Hr. rewrite !shape_checks_no_rows by assumption.
    split; reflexivity. }
  split.
  { intros Hsq Hr m n Hfirst.
    rewrite !(shape_checks_asymmetric function result Sigma _ _ m n)
      by assumption.
    split; reflexivity. }
  split.
  { intros Hs. apply Hiff in Hs. destruct Hs as (H1 & H2 & H3).
    rewrite !shape_checks_pass by assumption. split; reflexivity. }
  intros Htol Hdiff. rewrite Hiff.
  rewrite (symmetric_iff_spec Sigma Htol Hdiff). reflexivity.
Qed.

(** On the identity of order 2 all three shared checks pass: the overload
    without a name returns true, and the named one does what
    [check_pos_definite] does. *)
Lemma check_cov_matrix_overloads_witness :
  @check_cov_matrix_Sigma returning_nan "f" (identity 2) null = ret true /\
  @check_cov_matrix returning_nan "f" (identity 2) "Sigma" null =
  @check_pos_definite returning_nan "f" (identity 2) "y" null.
Proof.
  apply (proj1 (proj2 (proj2 (proj2 (proj2
    (@check_cov_matrix_overloads returning_nan "f" (identity 2) "Sigma" null)))))).
  reflexivity.
Defined.

(** ** The contract of check_corr_matrix *)

(** C3.  The code at the input where it departs from the claim: the 1x1
    matrix whose entry is NaN is accepted by [check_corr_matrix], documented
    to accept only matrices with "a unit diagonal (all 1 values)", although
    its diagonal entry is not within the tolerance of 1.0 and it is not
    positive definite.  The diagonal test [fabs(y(k,k) - 1.0) >
    CONSTRAINT_TOLERANCE] and the tests of [check_pos_definite] are all
    false for NaN. *)
Lemma check_corr_matrix_accepts_nan :
  @check_corr_matrix throwing "f" nan_1x1 "y" null = ret true /\
  ~ @spec_unit_diagonal throwing nan_1x1 /\
  ~ @spec_pos_definite throwing nan_1x1.
Proof.
  split; [reflexivity|]. split.
  - intros H. specialize (H 0 ltac:(simpl; lia)). vm_compute in H. discriminate.
  - intros [H _]. specialize (H eq_refl). vm_compute in H. discriminate.
Qed.

Lemma identity_passes {C : Collaborators} n :
  (0 <=? CONSTRAINT_TOLERANCE)%float = true ->
  (CONSTRAINT_TOLERANCE <? 1)%float = true ->
  (forall k, k < n -> ldlt_D (identity n) k = 1%float) ->
  symmetric_within_tolerance (identity n) /\ unit_diagonal (identity n) /\
  passes_pos_definite (identity n).
Proof.
  intros H0 H1 HD.
  assert (Hzero : (CONSTRAINT_TOLERANCE <? 0)%float = false)
    by (apply leb_true_ltb_false; exact H0).
  assert (Hone : (1 <=? CONSTRAINT_TOLERANCE)%float = false)
    by (apply ltb_true_leb_false; exact H1).
  split; [|split; [|split]].
  - intros m k Hm Hk. unfold asymmetric_at. simpl.
    assert (Hmk : (m =? k) = false) by (apply Nat.eqb_neq; lia).
    assert (Hkm : (k =? m) = false) by (apply Nat.eqb_neq; lia).
    rewrite Hmk, Hkm. exact Hzero.
  - intros k Hk. unfold off_unit_at. simpl. rewrite Nat.eqb_refl. exact Hzero.
  - intros _. simpl. exact Hone.
  - intros k Hk. simpl in Hk. rewrite HD by lia. exact Hone.
Qed.

(** What [check_corr_matrix] amounts to.  It succeeds exactly when the
    matrix is square, has a positive row count, passes the test of [check_symmetric]
    (no pair differs by more than the tolerance), has no diagonal entry that
    differs from 1.0 by more than the tolerance, and passes the tests of
    [check_pos_definite] (no value at or below the tolerance); where no NaN
    enters these comparisons, that is: symmetric within tolerance, every
    diagonal entry within the tolerance of 1.0, and positive definite as the
    specification defines them.  The five sub-checks run in this order and
    the first that fails ends the call with its own message.  With a
    tolerance in [0, 1) and a factorization whose diagonal for the identity
    is all ones, the identity matrix of every order at least 1 passes. *)
Theorem check_corr_matrix_contract {C : Collaborators} function y name result :
  (snd (check_corr_matrix function y name result) = Ret true <->
   rows y = cols y /\ 0 < rows y /\ symmetric_within_tolerance y /\
   unit_diagonal y /\ passes_pos_definite y) /\
  (rows y <> cols y ->
   check_corr_matrix function y name result =
   domain_failure function (size_match_message (cols y)) (VIndex (rows y))
     result) /\
  (rows y = cols y -> rows y = 0 ->
   check_corr_matrix function y name result =
   domain_failure function (positive_message "rows") (VIndex 0) result) /\
  (rows y = cols y -> 0 < rows y ->
   forall m n, first_asymmetric y m n ->
   check_corr_matrix function y name result =
   domain_failure function (symmetric_message "y" m n (coeffRef y n m))
     (VScalar (coeffRef y m n)) result) /\
  (rows y = cols y -> 0 < rows y -> symmetric_within_tolerance y ->
   forall k, first_off_unit y k ->
   check_corr_matrix function y name result =
   domain_failure function (corr_message name k) (VScalar (coeffRef y k k))
     result) /\
  (rows y = cols y -> 0 < rows y -> symmetric_within_tolerance y ->
   unit_diagonal y -> ~ passes_pos_definite y ->
   check_corr_matrix function y name result =
   domain_failure function (pos_definite_message "y")
     (VScalar (coeffRef y 0 0)) result) /\
  (is_nan CONSTRAINT_TOLERANCE = false ->
   (forall m n, m < n -> n < rows y ->
      is_nan (abs (coeffRef y m n - coeffRef y n m)) = false) ->
   (forall k, k < rows y -> is_nan (abs (coeffRef y k k - 1)) = false) ->
   (rows y = 1 -> ldlt_D y 0 = coeffRef y 0 0 /\ is_nan (coeffRef y 0 0) = false) ->
   (forall k, k < rows y -> is_nan (ldlt_D y k) = false) ->
   (snd (check_corr_matrix function y name result) = Ret true <->
    rows y = cols y /\ 0 < rows y /\ spec_symmetric y /\
    spec_unit_diagonal y /\ spec_pos_definite y)) /\
  (forall n, 1 <= n ->
   (0 <=? CONSTRAINT_TOLERANCE)%float = true ->
   (CONSTRAINT_TOLERANCE <? 1)%float = true ->
   (forall k, k < n -> ldlt_D (identity n) k = 1%float) ->
   check_corr_matrix function (identity n) name result = ret true).
Proof.
  assert (Hpass : forall z, rows z = cols z -> 0 < rows z ->
            symmetric_within_tolerance z -> unit_diagonal z ->
            check_corr_matrix function z name result =
            check_pos_definite function z "y" result).
  { intros z Hsq Hr Hsym Hunit. rewrite check_corr_matrix_shape.
    rewrite shape_checks_pass by assumption.
    rewrite unit_diagonal_loop_pass by assumption.
    rewrite bind_ret_l. reflexivity. }
  assert (Hdiag : forall k, rows y = cols y -> 0 < rows y ->
            symmetric_within_tolerance y -> first_off_unit y k ->
            check_corr_matrix function y name result =
            domain_failure function (corr_message name k)
              (VScalar (coeffRef y k k)) result).
  { intros k Hsq Hr Hsym Hfirst. rewrite check_corr_matrix_shape.
    rewrite shape_checks_pass by assumption.
    rewrite (unit_diagonal_loop_fail function result name y k Hsq Hfirst).
    apply return_from_loop. }
  assert (Hiff : snd (check_corr_matrix function y name result) = Ret true <->
                 rows y = cols y /\ 0 < rows y /\ symmetric_within_tolerance y /\
                 unit_diagonal y /\ passes_pos_definite y).
  { split.
    - intros Hs. pose proof Hs as Hs'.
      rewrite check_corr_matrix_shape in Hs'.
      apply shape_checks_true_iff in Hs'. destruct Hs' as (H1 & H2 & H3 & _).
      destruct (unit_diagonal_or_first_off_unit y) as [Hunit|(k & Hfirst)].
      + rewrite (Hpass y H1 H2 H3 Hunit) in Hs.
        apply check_pos_definite_true_iff in Hs; [|lia]. tauto.
      + rewrite (Hdiag k H1 H2 H3 Hfirst) in Hs.
        failure_is_not_success Hs.
    - intros (H1 & H2 & H3 & H4 & H5). rewrite (Hpass y H1 H2 H3 H4).
      apply check_pos_definite_true_iff; [lia | assumption]. }
  split; [exact Hiff|].
  split; [intros Hne; rewrite check_corr_matrix_shape;
          apply shape_checks_not_square; assumption|].
  split; [intros Hsq Hr; rewrite check_corr_matrix_shape;
          apply shape_checks_no_rows; assumption|].
  split; [intros Hsq Hr m n Hfirst; rewrite check_corr_matrix_shape;
          apply shape_checks_asymmetric; assumption|].
  split; [intros Hsq Hr Hsym k Hfirst; apply Hdiag; assumption|].
  split.
  { intros Hsq Hr Hsym Hunit Hnpd. rewrite (Hpass y Hsq Hr Hsym Hunit).
    rewrite check_pos_definite_run by lia.
    rewrite (not_passes_pos_definite y Hnpd). reflexivity. }
  split.
  { intros Htol Hdiff Hdiag1 Hentry Hfactors. rewrite Hiff. split.
    - intros (H1 & H2 & H3 & H4 & H5).
      split; [assumption|]. split; [assumption|]. split; [|split].
      + apply symmetric_iff_spec; assumption.
      + apply unit_diagonal_iff_spec; assumption.
      + apply (pos_definite_iff_spec y H1 Htol Hentry Hfactors). exact H5.
    - intros (H1 & H2 & H3 & H4 & H5).
      split; [assumption|]. split; [assumption|]. split; [|split].
      + apply symmetric_iff_spec; assumption.
      + apply unit_diagonal_iff_spec; assumption.
      + apply (pos_definite_iff_spec y H1 Htol Hentry Hfactors). exact H5. }
  intros n Hn H0 H1 HD.
  destruct (identity_passes n H0 H1 HD) as (Hsym & Hunit & Hpd).
  rewrite (Hpass (identity n) eq_refl Hn Hsym Hunit).
  rewrite check_pos_definite_run by (simpl; lia).
  apply pos_definite_fails_false in Hpd. rewrite Hpd. reflexivity.
Qed.

(** The identity matrix of order 3 passes, under either policy. *)
Lemma check_corr_matrix_contract_witness :
  @check_corr_matrix throwing "f" (identity 3) "y" null = ret true.
Proof.
  apply (proj2 (proj2 (proj2 (proj2 (proj2 (proj2 (proj2
    (@check_corr_matrix_contract throwing "f" (identity 3) "y" null))))))) 3);
    try reflexivity.
  - lia.
  - intros k Hk. destruct k as [|[|[|k]]]; try reflexivity. lia.
Defined.

(** ** The output slot *)

Section Slot.

Context {C : Collaborators}.

Variable result : pointer.

Lemma disciplined_bind {A B} (fa : A -> Prop) (fb : B -> Prop)
    (m : M A) (k : A -> M B) :
  disciplined result fa m ->
  (forall a, ~ fa a -> disciplined result fb (k a)) ->
  (forall a, fa a -> exists b, k a = ret b /\ fb b) ->
  disciplined result fb (bind m k).
Proof.
  intros Hm Hquiet Hfail. destruct Hm as [a Ha|f msg v tmp a Hp Ha|f msg v Hp|i j].
  - change (@pair (list event) (outcome A) [] (Ret a)) with (ret a).
    rewrite bind_ret_l. apply Hquiet. exact Ha.
  - destruct (Hfail a Ha) as (b & Hk & Hb).
    unfold bind; simpl. rewrite Hk. simpl. rewrite app_nil_r.
    apply disciplined_failure; assumption.
  - apply disciplined_throw. exact Hp.
  - apply disciplined_out_of_range.
Qed.

(** Reading an element neither raises nor writes. *)
Lemma disciplined_coeff y i j : disciplined result never (coeff y i j).
Proof.
  unfold coeff. destruct ((i <? rows y) && (j <? cols y)).
  - apply disciplined_quiet. intros [].
  - apply disciplined_out_of_range.
Qed.

Lemma disciplined_vcoeff (y : Vector) i : disciplined result never (vcoeff y i).
Proof.
  unfold vcoeff. destruct (nth_error y i).
  - apply disciplined_quiet. intros [].
  - apply disciplined_out_of_range.
Qed.

Lemma disciplined_read {B} (fb : B -> Prop) (m : M float) (k : float -> M B) :
  disciplined result never m -> (forall x, disciplined result fb (k x)) ->
  disciplined result fb (bind m k).
Proof.
  intros Hm Hk. apply (disciplined_bind never fb); try assumption.
  - intros a _. apply Hk.
  - intros a [].
Qed.

Lemma disciplined_domain_failure function message val :
  disciplined result returned_false (domain_failure function message val result).
Proof.
  rewrite domain_failure_run.
  destruct (policy function message val) as [tmp|] eqn:Hp.
  - apply disciplined_failure; [exact Hp | reflexivity].
  - apply disciplined_throw. exact Hp.
Qed.

(** [return false] from inside a loop. *)
Lemma disciplined_leave (m : M bool) :
  disciplined result returned_false m ->
  disciplined result left_false (b <- m ;; ret (Some b)).
Proof.
  intros Hm. apply (disciplined_bind returned_false left_false); try assumption.
  - intros b Hb. apply disciplined_quiet. unfold left_false, returned_false in *.
    intros H. inversion H. contradiction.
  - intros b Hb. exists (Some b). split; [reflexivity|].
    unfold left_false, returned_false in *. congruence.
Qed.

Lemma disciplined_for_steps (body : nat -> M (option bool)) steps i :
  (forall j, disciplined result left_false (body j)) ->
  disciplined result left_false (for_steps steps i body).
Proof.
  intros Hbody. revert i. induction steps as [|steps IH]; intros i; simpl.
  - apply disciplined_quiet. discriminate.
  - apply (disciplined_bind left_false left_false); [apply Hbody| |].
    + intros [b|] Hr; [|apply IH].
      apply disciplined_quiet. exact Hr.
    + intros r ->. exists (Some false). split; reflexivity.
Qed.

Lemma disciplined_for_loop (body : nat -> M (option bool)) lo hi :
  (forall j, disciplined result left_false (body j)) ->
  disciplined result left_false (for_loop lo hi body).
Proof. apply disciplined_for_steps. Qed.

(** After the loop: [return b] if the loop asked for it, else the rest. *)
Lemma disciplined_after_loop (m : M (option bool)) (k : M bool) :
  disciplined result left_false m -> disciplined result returned_false k ->
  disciplined result returned_false
    (r <- m ;; match r with Some b => ret b | None => k end).
Proof.
  intros Hm Hk. apply (disciplined_bind left_false returned_false);
    try assumption.
  - intros [[|]|] Hr; try assumption.
    + apply disciplined_quiet. discriminate.
    + exfalso. apply Hr. reflexivity.
  - intros r ->. exists false. split; reflexivity.
Qed.

(** [if (!check(...)) return false;] followed by the rest. *)
Lemma disciplined_then (m k : M bool) :
  disciplined result returned_false m -> disciplined result returned_false k ->
  disciplined result returned_false (b <- m ;; if negb b then ret false else k).
Proof.
  intros Hm Hk. apply (disciplined_bind returned_false returned_false);
    try assumption.
  - intros [|] Hb; [exact Hk|]. exfalso. apply Hb. reflexivity.
  - intros b ->. exists false. split; reflexivity.
Qed.

Lemma disciplined_true : disciplined result returned_false (ret true).
Proof. apply disciplined_quiet. discriminate. Qed.

Variable function : string.

Lemma disciplined_check_size_match i j :
  disciplined result returned_false (check_size_match function i j result).
Proof.
  unfold check_size_match. destruct (negb (i =? j)).
  - apply disciplined_domain_failure.
  - apply disciplined_true.
Qed.

Lemma disciplined_check_positive x name :
  disciplined result returned_false (check_positive function x name result).
Proof.
  unfold check_positive. destruct (negb (0 <? x)).
  - apply disciplined_domain_failure.
  - apply disciplined_true.
Qed.

Lemma disciplined_symmetric_step y name m n :
  disciplined result left_false (symmetric_step function y name result m n).
Proof.
  unfold symmetric_step.
  apply disciplined_read; [apply disciplined_coeff|]. intros ymn.
  apply disciplined_read; [apply disciplined_coeff|]. intros ynm.
  destruct (CONSTRAINT_TOLERANCE <? abs (ymn - ynm))%float.
  - apply disciplined_read; [apply disciplined_coeff|]. intros ynm'.
    apply disciplined_read; [apply disciplined_coeff|]. intros ymn'.
    apply disciplined_leave, disciplined_domain_failure.
  - apply disciplined_quiet. discriminate.
Qed.

Lemma disciplined_check_symmetric y name :
  disciplined result returned_false (check_symmetric function y name result).
Proof.
  unfold check_symmetric. destruct (rows y =? 1); [apply disciplined_true|].
  apply disciplined_after_loop; [|apply disciplined_true].
  apply disciplined_for_loop. intros m.
  apply disciplined_for_loop. intros n.
  apply disciplined_symmetric_step.
Qed.

Lemma disciplined_check_pos_definite y name :
  disciplined result returned_false (check_pos_definite function y name result).
Proof.
  destruct (check_pos_definite_outcomes function y name result)
    as [-> | [-> | ->]].
  - apply disciplined_true.
  - apply disciplined_domain_failure.
  - apply disciplined_out_of_range.
Qed.

Lemma disciplined_shape_checks y label k :
  disciplined result returned_false k ->
  disciplined result returned_false (shape_checks function y label result k).
Proof.
  intros Hk. unfold shape_checks.
  apply disciplined_then; [apply disciplined_check_size_match|].
  apply disciplined_then; [apply disciplined_check_positive|].
  apply disciplined_then; [apply disciplined_check_symmetric|].
  exact Hk.
Qed.

Lemma disciplined_check_cov_matrix y name :
  disciplined result returned_false (check_cov_matrix function y name result).
Proof.
  rewrite check_cov_matrix_shape.
  apply disciplined_shape_checks, disciplined_check_pos_definite.
Qed.

Lemma disciplined_check_cov_matrix_Sigma Sigma :
  disciplined result returned_false (check_cov_matrix_Sigma function Sigma result).
Proof.
  rewrite check_cov_matrix_Sigma_shape.
  apply disciplined_shape_checks, disciplined_true.
Qed.

Lemma disciplined_check_corr_matrix y name :
  disciplined result returned_false (check_corr_matrix function y name result).
Proof.
  rewrite check_corr_matrix_shape.
  apply disciplined_shape_checks.
  apply disciplined_after_loop; [|apply disciplined_check_pos_definite].
  apply disciplined_for_loop. intros k. unfold unit_diagonal_step.
  apply disciplined_read; [apply disciplined_coeff|]. intros ykk.
  destruct (CONSTRAINT_TOLERANCE <? abs (ykk - 1))%float.
  - apply disciplined_read; [apply disciplined_coeff|]. intros ykk'.
    apply disciplined_leave, disciplined_domain_failure.
  - apply disciplined_quiet. discriminate.
Qed.

Lemma disciplined_scan p message (y : Vector) :
  disciplined result returned_false (scan p message function y result).
Proof.
  unfold scan.
  apply disciplined_after_loop; [|apply disciplined_true].
  apply disciplined_for_loop. intros i. unfold scan_step.
  apply disciplined_read; [apply disciplined_vcoeff|]. intros yi.
  destruct (p yi).
  - apply disciplined_read; [apply disciplined_vcoeff|]. intros yi'.
    apply disciplined_leave, disciplined_domain_failure.
  - apply disciplined_quiet. discriminate.
Qed.

Lemma disciplined_check_not_nan_matrix y name :
  disciplined result returned_false (check_not_nan_matrix function y name result).
Proof.
  unfold check_not_nan_matrix.
  apply disciplined_after_loop; [|apply disciplined_true].
  apply disciplined_for_loop. intros i.
  apply disciplined_for_loop. intros j. unfold not_nan_matrix_step.
  apply disciplined_read; [apply disciplined_coeff|]. intros yij.
  destruct (is_nan yij).
  - apply disciplined_read; [apply disciplined_coeff|]. intros yij'.
    apply disciplined_leave, disciplined_domain_failure.
  - apply disciplined_quiet. discriminate.
Qed.

Lemma disciplined_slot_use (m : M bool) :
  disciplined result returned_false m -> slot_use result m.
Proof.
  intros Hm. unfold slot_use.
  destruct Hm as [a Ha|f msg v tmp a Hp Ha|f msg v Hp|i j]; simpl.
  - split; [discriminate|]. split; [|split; [|split]].
    + split; [intros H; contradiction H; reflexivity|].
      intros [H _]. inversion H. subst a. exfalso. apply Ha. reflexivity.
    + intros a0 tmp [].
    + reflexivity.
    + reflexivity.
  - unfold returned_false in Ha. subst a. destruct result as [|a]; simpl.
    + split; [discriminate|]. split; [|split; [|split]].
      * split; [intros H; contradiction H; reflexivity|].
        intros [_ H]. contradiction H. reflexivity.
      * intros a0 tmp0 [].
      * discriminate.
      * reflexivity.
    + split; [discriminate|]. split; [|split; [|split]].
      * split; [intros _; split; [reflexivity | discriminate]|].
        intros _. discriminate.
      * intros a0 tmp0 [H|[]]. inversion H. subst.
        split; [reflexivity|]. split; [reflexivity|].
        exists f, msg, v. split; [left; reflexivity | exact Hp].
      * discriminate.
      * intros [H|H]; discriminate.
  - split; [discriminate|]. split; [|split; [|split]].
    + split; [intros H; contradiction H; reflexivity|].
      intros [H _]. discriminate.
    + intros a0 tmp [].
    + discriminate.
    + reflexivity.
  - split; [discriminate|]. split; [|split; [|split]].
    + split; [intros H; contradiction H; reflexivity|].
      intros [H _]. discriminate.
    + intros a0 tmp [].
    + reflexivity.
    + reflexivity.
Qed.

End Slot.

(** C9, as the specification words it, does not hold: under a policy that
    throws, a predicate that finds a violation fails, its slot pointer is
    non-null, and nothing is written - the exception leaves the call before
    the assignment [*result = tmp]. *)
Lemma failed_call_that_throws_writes_nothing :
  (@check_size_match throwing "f" 2 3 (ptr 3) =
     ([Raise "f" "i and j must be same.  Found i=%1%, j=3" (VIndex 2)], Throw) /\
   writes (fst (@check_size_match throwing "f" 2 3 (ptr 3))) = []) /\
  (@check_finite throwing "f" [1; infinity]%float "y" (ptr 3) =
     ([Raise "f" "y[1] is %1%, but must be finite!" (VScalar infinity)], Throw) /\
   writes (fst (@check_finite throwing "f" [1; infinity]%float "y" (ptr 3))) = []) /\
  ptr 3 <> null.
Proof.
  split; [split; reflexivity|]. split; [split; reflexivity|]. discriminate.
Qed.

(** C9 (amended).  Each predicate of the layer writes the caller's output
    slot exactly when it returns false and the slot pointer is non-null,
    that is, when it has found a violation and the error policy has returned
    a value instead of throwing: then it writes once, at the slot, the value
    the policy returned.  When the policy throws, the call fails without
    writing.  A call that returns true leaves no trace at all, so the slot
    keeps its contents; so does every call given the null pointer, which is
    never written through. *)
Theorem output_slot_contract {C : Collaborators}
    function name result (i j : nat) (y : Matrix) (v : Vector) :
  slot_use result (check_size_match function i j result) /\
  slot_use result (check_symmetric function y name result) /\
  slot_use result (check_pos_definite function y name result) /\
  slot_use result (check_cov_matrix function y name result) /\
  slot_use result (check_cov_matrix_Sigma function y result) /\
  slot_use result (check_corr_matrix function y name result) /\
  slot_use result (check_not_nan function v name result) /\
  slot_use result (check_not_nan_matrix function y name result) /\
  slot_use result (check_finite function v name result).
Proof.
  repeat match goal with |- _ /\ _ => split end; apply disciplined_slot_use.
  - apply disciplined_check_size_match.
  - apply disciplined_check_symmetric.
  - apply disciplined_check_pos_definite.
  - apply disciplined_check_cov_matrix.
  - apply disciplined_check_cov_matrix_Sigma.
  - apply disciplined_check_corr_matrix.
  - rewrite check_not_nan_scan. apply disciplined_scan.
  - apply disciplined_check_not_nan_matrix.
  - rewrite check_finite_scan. apply disciplined_scan.
Qed.

(** A failed size check under the policy that returns NaN has written its
    slot, so it returned false and its slot pointer is not null. *)
Lemma output_slot_contract_witness :
  snd (@check_size_match returning_nan "f" 2 3 (ptr 3)) = Ret false /\
  ptr 3 <> null.
Proof.
  destruct (@output_slot_contract returning_nan "f" "y" (ptr 3) 2 3
              empty_0x0 []) as [(_ & Hwritten & _) _].
  apply Hwritten. discriminate.
Defined.

(** A failed size check under the policy that returns NaN stores NaN in the
    slot at address 3 and nowhere else; with the null pointer nothing is
    stored. *)
Example check_size_match_writes_slot :
  @check_size_match returning_nan "f" 2 3 (ptr 3) =
    ([Raise "f" "i and j must be same.  Found i=%1%, j=3" (VIndex 2);
      Store 3 nan], Ret false) /\
  apply_trace (fst (@check_size_match returning_nan "f" 2 3 (ptr 3)))
    (fun _ => 0%float) 3 = nan /\
  apply_trace (fst (@check_size_match returning_nan "f" 2 3 (ptr 3)))
    (fun _ => 0%float) 4 = 0%float /\
  @check_size_match returning_nan "f" 2 3 null =
    ([Raise "f" "i and j must be same.  Found i=%1%, j=3" (VIndex 2)],
     Ret false) /\
  @check_size_match throwing "f" 2 3 (ptr 3) =
    ([Raise "f" "i and j must be same.  Found i=%1%, j=3" (VIndex 2)], Throw).
Proof. repeat split. Qed.

(** * Further properties of the header *)

(** ** Element accesses of the other predicates *)

Section Safety.

Context {C : Collaborators}.

Lemma domain_failure_not_fault function message val result f :
  snd (domain_failure function message val result) <> Fault f.
Proof.
  rewrite domain_failure_run.
  destruct (policy function message val); simpl; discriminate.
Qed.

Lemma check_pos_definite_square_not_fault function y name result f :
  rows y = cols y ->
  snd (check_pos_definite function y name result) <> Fault f.
Proof.
  intros Hsq. rewrite check_pos_definite_run by lia.
  destruct (pos_definite_fails y);
    [apply domain_failure_not_fault | discriminate].
Qed.

(** The shape checks let no out-of-range access through: what follows them
    runs only on square matrices with a row. *)
Lemma shape_checks_not_fault function y label result k f :
  (rows y = cols y -> 0 < rows y -> snd k <> Fault f) ->
  snd (shape_checks function y label result k) <> Fault f.
Proof.
  intros Hk.
  destruct (Nat.eq_dec (rows y) (cols y)) as [Hsq|Hne].
  - destruct (rows y) as [|r] eqn:Hr.
    + rewrite shape_checks_no_rows by congruence.
      apply domain_failure_not_fault.
    + assert (Hpos : 0 < rows y) by lia. rewrite <- Hr in *.
      destruct (symmetric_or_first_asymmetric y) as [Hsym|(m & n & Hfirst)].
      * rewrite shape_checks_pass by assumption. apply Hk; assumption.
      * rewrite (shape_checks_asymmetric function result y label k m n)
          by assumption.
        apply domain_failure_not_fault.
  - rewrite shape_checks_not_square by assumption.
    apply domain_failure_not_fault.
Qed.

Lemma scan_cases p message function (y : Vector) result :
  scan p message function y result = ret true \/
  exists i x, nth_error y i = Some x /\ p x = true /\
    (forall j x', j < i -> nth_error y j = Some x' -> p x' = false) /\
    scan p message function y result =
    domain_failure function (message i) (VScalar x) result.
Proof.
  destruct (first_true
              (fun i => match nth_error y i with
                        | Some x => p x
                        | None => false
                        end) 0 (List.length y))
    as [Hall|(i & _ & Hi & Hp & Hbefore)].
  - left. apply scan_pass. intros i x Hx.
    specialize (Hall i (Nat.le_0_l i)). rewrite Hx in Hall.
    apply Hall. apply nth_error_Some. congruence.
  - right. destruct (nth_error y i) as [x|] eqn:Hx; [|discriminate].
    assert (Hb : forall j x', j < i -> nth_error y j = Some x' -> p x' = false).
    { intros j x' Hj Hx'. specialize (Hbefore j (Nat.le_0_l j) Hj).
      rewrite Hx' in Hbefore. exact Hbefore. }
    exists i, x. repeat split; try assumption.
    apply scan_fail; assumption.
Qed.

End Safety.

(** X1.  The composite predicates read no element outside the matrix,
    whatever its dimensions: squareness and a positive row count are checked
    before the first element access, so [check_symmetric] and
    [check_pos_definite] only ever run on square matrices with a row. *)
Theorem composites_access_in_range {C : Collaborators}
    function y name result f :
  snd (check_cov_matrix function y name result) <> Fault f /\
  snd (check_cov_matrix_Sigma function y result) <> Fault f /\
  snd (check_corr_matrix function y name result) <> Fault f.
Proof.
  split; [|split].
  - rewrite check_cov_matrix_shape. apply shape_checks_not_fault.
    intros Hsq _. apply check_pos_definite_square_not_fault. exact Hsq.
  - rewrite check_cov_matrix_Sigma_shape. apply shape_checks_not_fault.
    intros _ _. discriminate.
  - rewrite check_corr_matrix_shape. apply shape_checks_not_fault.
    intros Hsq Hpos.
    destruct (unit_diagonal_or_first_off_unit y) as [Hunit|(k & Hfirst)].
    + rewrite unit_diagonal_loop_pass by assumption. rewrite bind_ret_l.
      apply check_pos_definite_square_not_fault. exact Hsq.
    + rewrite (unit_diagonal_loop_fail function result name y k Hsq Hfirst).
      rewrite return_from_loop. apply domain_failure_not_fault.
Qed.

(** The tall matrix that makes [check_symmetric] read a missing column is
    turned away by the size check of the composite. *)
Example check_cov_matrix_on_tall_matrix :
  @check_cov_matrix returning_nan "f" tall_2x1 "Sigma" null =
  ([Raise "f" "i and j must be same.  Found i=%1%, j=1" (VIndex 2)], Ret false).
Proof. reflexivity. Qed.

(** X2.  The scanning predicates read no element outside the container:
    on every vector and every matrix, each of them ends by returning true or
    in the failure block (returning false, or throwing with the policy). *)
Theorem scans_access_in_range {C : Collaborators}
    function name result (y : Vector) (Y : Matrix) f :
  snd (check_not_nan function y name result) <> Fault f /\
  snd (check_finite function y name result) <> Fault f /\
  snd (check_not_nan_matrix function Y name result) <> Fault f.
Proof.
  split; [|split].
  - rewrite check_not_nan_scan.
    destruct (scan_cases is_nan (not_nan_message name) function y result)
      as [->|(i & x & _ & _ & _ & ->)];
      [discriminate | apply domain_failure_not_fault].
  - rewrite check_finite_scan.
    destruct (scan_cases (fun x => negb (is_finite x)) (finite_message name)
                function y result)
      as [->|(i & x & _ & _ & _ & ->)];
      [discriminate | apply domain_failure_not_fault].
  - destruct (no_nan_or_first_nan Y) as [Hall|(i & j & Hfirst)].
    + rewrite check_not_nan_matrix_pass by assumption. discriminate.
    + rewrite (check_not_nan_matrix_fail function name result Y i j Hfirst).
      apply domain_failure_not_fault.
Qed.

(** X3.  [check_pos_definite] reads outside the matrix in exactly one
    situation: a matrix with one row and no column, where the order-1 guard
    reads the entry (0,0).  On every other matrix, square or not, its
    accesses to [y(0,0)] are in range. *)
Theorem check_pos_definite_access {C : Collaborators} function y name result :
  ((exists f, snd (check_pos_definite function y name result) = Fault f) <->
   rows y = 1 /\ cols y = 0) /\
  (rows y = 1 -> cols y = 0 ->
   check_pos_definite function y name result = abort (OutOfRange 0 0)).
Proof.
  assert (Hbad : rows y = 1 -> cols y = 0 ->
            check_pos_definite function y name result = abort (OutOfRange 0 0)).
  { intros Hr Hc. unfold check_pos_definite, coeff. rewrite Hr, Hc. reflexivity. }
  split; [|exact Hbad]. split.
  - intros [f Hf].
    destruct (Nat.eq_dec (rows y) 1) as [Hr|Hr].
    + destruct (cols y) as [|c] eqn:Hc; [split; [assumption|reflexivity]|].
      exfalso. rewrite check_pos_definite_run in Hf by lia.
      destruct (pos_definite_fails y);
        [exact (domain_failure_not_fault _ _ _ _ _ Hf) | discriminate].
    + exfalso. rewrite check_pos_definite_run in Hf by (intros; contradiction).
      destruct (pos_definite_fails y);
        [exact (domain_failure_not_fault _ _ _ _ _ Hf) | discriminate].
  - intros [Hr Hc]. exists (OutOfRange 0 0). rewrite (Hbad Hr Hc). reflexivity.
Qed.

(** ** What every call of the layer does and never does *)

Section Calls.

Context {C : Collaborators}.

Lemma disciplined_layer_calls function name result i j y v :
  Forall (disciplined result returned_false)
    (layer_calls function name result i j y v).
Proof.
  unfold layer_calls. repeat constructor.
  - apply disciplined_check_size_match.
  - apply disciplined_check_symmetric.
  - apply disciplined_check_pos_definite.
  - apply disciplined_check_cov_matrix.
  - apply disciplined_check_cov_matrix_Sigma.
  - apply disciplined_check_corr_matrix.
  - rewrite check_not_nan_scan. apply disciplined_scan.
  - apply disciplined_check_not_nan_matrix.
  - rewrite check_finite_scan. apply disciplined_scan.
Qed.

Lemma raised_failure function message val result tmp :
  raised (Raise function message val :: slot_write result tmp) =
  [(function, message, val)].
Proof. destruct result; reflexivity. Qed.

Lemma writes_failure function message val result tmp :
  writes (Raise function message val :: slot_write result tmp) =
  match result with
  | null => []
  | ptr a => [(a, tmp)]
  end.
Proof. destruct result; reflexivity. Qed.

Lemma disciplined_reports_once result (m : M bool) :
  disciplined result returned_false m -> reports_once m.
Proof.
  intros Hm. unfold reports_once.
  destruct Hm as [a Ha|f msg v tmp a Hp Ha|f msg v Hp|i j].
  - simpl. split; [lia|]. split; [intros H; contradiction H; reflexivity|].
    intros [H|H]; [|discriminate].
    inversion H. subst a. exfalso. apply Ha. reflexivity.
  - unfold returned_false in Ha. subst a.
    cbn [fst snd]. rewrite raised_failure. simpl.
    split; [lia|]. split; [intros _; left; reflexivity | intros _; discriminate].
  - simpl. split; [lia|].
    split; [intros _; right; reflexivity | intros _; discriminate].
  - simpl. split; [lia|]. split; [intros H; contradiction H; reflexivity|].
    intros [H|H]; discriminate.
Qed.

Lemma disciplined_never_throws result (m : M bool) :
  (forall function message val, policy function message val <> None) ->
  disciplined result returned_false m -> snd m <> Throw.
Proof.
  intros Hpol Hm.
  destruct Hm as [a Ha|f msg v tmp a Hp Ha|f msg v Hp|i j]; simpl;
    try discriminate.
  exfalso. exact (Hpol f msg v Hp).
Qed.

Lemma disciplined_never_false result (m : M bool) :
  (forall function message val, policy function message val = None) ->
  disciplined result returned_false m ->
  snd m <> Ret false /\ writes (fst m) = [].
Proof.
  intros Hpol Hm.
  destruct Hm as [a Ha|f msg v tmp a Hp Ha|f msg v Hp|i j]; simpl.
  - split; [|reflexivity]. intros H. inversion H. subst a.
    apply Ha. reflexivity.
  - rewrite Hpol in Hp. discriminate.
  - split; [discriminate | reflexivity].
  - split; [discriminate | reflexivity].
Qed.

End Calls.

(** X4.  No call of the layer reports two errors: each of the nine
    predicates hands at most one message to the error-reporting collaborator,
    and hands it one exactly when the call returns false or the policy
    throws; a call that returns true has reported nothing. *)
Theorem layer_reports_once {C : Collaborators}
    function name result i j y v :
  Forall reports_once (layer_calls function name result i j y v).
Proof.
  eapply Forall_impl; [|apply disciplined_layer_calls].
  intros m. apply disciplined_reports_once.
Qed.

(** X5.  How a call ends depends on the policy in this way: under a policy
    that throws on every domain error no predicate returns false (it returns
    true or the exception leaves the call) and the output slot is never
    written; under a policy that never throws no predicate throws. *)
Theorem layer_under_policy {C : Collaborators}
    function name result i j y v :
  ((forall f message val, policy f message val = None) ->
   Forall (fun m => snd m <> Ret false /\ writes (fst m) = [])
     (layer_calls function name result i j y v)) /\
  ((forall f message val, policy f message val <> None) ->
   Forall (fun m => snd m <> Throw)
     (layer_calls function name result i j y v)).
Proof.
  split; intros Hpol.
  - eapply Forall_impl; [|apply disciplined_layer_calls].
    intros m. apply disciplined_never_false. exact Hpol.
  - eapply Forall_impl; [|apply disciplined_layer_calls].
    intros m. apply disciplined_never_throws. exact Hpol.
Qed.

(** Under the throwing policy and under the policy returning NaN. *)
Lemma layer_under_policy_witness :
  Forall (fun m => snd m <> Ret false /\ writes (fst m) = [])
    (@layer_calls throwing "f" "y" (ptr 0) 2 3 asymmetric_2x2 [nan]) /\
  Forall (fun m => snd m <> Throw)
    (@layer_calls returning_nan "f" "y" (ptr 0) 2 3 asymmetric_2x2 [nan]).
Proof.
  split.
  - apply (proj1 (@layer_under_policy throwing "f" "y" (ptr 0) 2 3
                    asymmetric_2x2 [nan])).
    reflexivity.
  - apply (proj2 (@layer_under_policy returning_nan "f" "y" (ptr 0) 2 3
                    asymmetric_2x2 [nan])).
    discriminate.
Defined.

(** ** How the composite predicates relate *)

Section Hierarchy.

Context {C : Collaborators}.

(** Two composite predicates with the same label agree as soon as their
    bodies agree on the matrices that pass the shape checks. *)
Lemma shape_checks_cong function y label result k k' :
  (rows y = cols y -> 0 < rows y -> symmetric_within_tolerance y -> k = k') ->
  shape_checks function y label result k =
  shape_checks function y label result k'.
Proof.
  intros Hk.
  destruct (Nat.eq_dec (rows y) (cols y)) as [Hsq|Hne].
  - destruct (rows y) as [|r] eqn:Hr.
    + rewrite !shape_checks_no_rows by congruence. reflexivity.
    + assert (Hpos : 0 < rows y) by lia. rewrite <- Hr in *.
      destruct (symmetric_or_first_asymmetric y) as [Hsym|(m & n & Hfirst)].
      * rewrite !shape_checks_pass by assumption. apply Hk; assumption.
      * rewrite !(shape_checks_asymmetric function result y label _ m n)
          by assumption.
        reflexivity.
  - rewrite !shape_checks_not_square by assumption. reflexivity.
Qed.

Lemma check_corr_matrix_true function y name result :
  snd (check_corr_matrix function y name result) = Ret true ->
  rows y = cols y /\ 0 < rows y /\ symmetric_within_tolerance y /\
  unit_diagonal y /\
  snd (check_pos_definite function y "y" result) = Ret true.
Proof.
  rewrite check_corr_matrix_shape, shape_checks_true_iff.
  intros (Hsq & Hpos & Hsym & Hk).
  destruct (unit_diagonal_or_first_off_unit y) as [Hunit|(k & Hfirst)].
  - rewrite unit_diagonal_loop_pass, bind_ret_l in Hk by assumption. tauto.
  - rewrite (unit_diagonal_loop_fail function result name y k Hsq Hfirst),
      return_from_loop in Hk.
    failure_is_not_success Hk.
Qed.

End Hierarchy.

(** X6.  The three composite predicates are nested.  On a matrix whose
    diagonal passes the unit-diagonal test, [check_corr_matrix] does exactly
    what [check_cov_matrix] does (same messages, same writes, same result);
    every matrix accepted by [check_corr_matrix] is accepted by
    [check_cov_matrix], and every matrix accepted by [check_cov_matrix] is
    accepted by the overload without a name. *)
Theorem composites_nested {C : Collaborators} function y name name' result :
  (unit_diagonal y ->
   check_corr_matrix function y name result =
   check_cov_matrix function y name' result) /\
  (snd (check_corr_matrix function y name result) = Ret true ->
   snd (check_cov_matrix function y name' result) = Ret true) /\
  (snd (check_cov_matrix function y name result) = Ret true ->
   snd (check_cov_matrix_Sigma function y result) = Ret true).
Proof.
  split; [|split].
  - intros Hunit. rewrite check_corr_matrix_shape, check_cov_matrix_shape.
    apply shape_checks_cong. intros Hsq Hpos Hsym.
    rewrite unit_diagonal_loop_pass by assumption. rewrite bind_ret_l.
    reflexivity.
  - intros Hs. apply check_corr_matrix_true in Hs.
    destruct Hs as (Hsq & Hpos & Hsym & _ & Hpd).
    rewrite check_cov_matrix_shape. apply shape_checks_true_iff. tauto.
  - rewrite check_cov_matrix_shape, check_cov_matrix_Sigma_shape.
    rewrite !shape_checks_true_iff. simpl. tauto.
Qed.

(** ** How the scanning predicates relate *)

Section ScanRelations.

Context {C : Collaborators}.

Lemma is_finite_not_nan x : is_finite x = true -> is_nan x = false.
Proof.
  unfold is_finite. intros H. apply negb_true_iff in H.
  apply orb_false_iff in H. tauto.
Qed.

Lemma nth_error_column (v : Vector) i x :
  nth_error v i = Some x ->
  i < rows (column v) /\ 0 < cols (column v) /\ coeffRef (column v) i 0 = x.
Proof.
  intros Hx. simpl. split; [apply nth_error_Some; congruence|].
  split; [lia|]. apply nth_error_nth. exact Hx.
Qed.

Lemma column_nth_error (v : Vector) i :
  i < List.length v -> nth_error v i = Some (coeffRef (column v) i 0).
Proof.
  intros Hi. simpl. destruct (nth_error v i) as [x|] eqn:Hx.
  - rewrite (nth_error_nth v i 0%float Hx). reflexivity.
  - apply nth_error_None in Hx. lia.
Qed.

Lemma scan_app_pass (p : float -> bool) (v w : Vector) :
  (forall i x, nth_error (v ++ w) i = Some x -> p x = false) <->
  (forall i x, nth_error v i = Some x -> p x = false) /\
  (forall i x, nth_error w i = Some x -> p x = false).
Proof.
  split.
  - intros H. split; intros i x Hx.
    + apply (H i x). rewrite nth_error_app1; [exact Hx|].
      apply nth_error_Some. congruence.
    + apply (H (List.length v + i) x).
      rewrite nth_error_app2 by lia.
      replace (List.length v + i - List.length v) with i by lia. exact Hx.
  - intros [Hv Hw] i x Hx.
    destruct (Nat.lt_ge_cases i (List.length v)) as [Hi|Hi].
    + rewrite nth_error_app1 in Hx by assumption. exact (Hv i x Hx).
    + rewrite nth_error_app2 in Hx by assumption. exact (Hw _ x Hx).
Qed.

Lemma scan_app_left p message function (v w : Vector) result i x :
  nth_error v i = Some x -> p x = true ->
  (forall j x', j < i -> nth_error v j = Some x' -> p x' = false) ->
  scan p message function (v ++ w) result =
  domain_failure function (message i) (VScalar x) result.
Proof.
  intros Hx Hp Hbefore.
  assert (Hi : i < List.length v) by (apply nth_error_Some; congruence).
  apply scan_fail; try assumption.
  - rewrite nth_error_app1 by assumption. exact Hx.
  - intros j x' Hj Hx'. rewrite nth_error_app1 in Hx' by lia.
    exact (Hbefore j x' Hj Hx').
Qed.

Lemma scan_app_right p message function (v w : Vector) result i x :
  (forall j x', nth_error v j = Some x' -> p x' = false) ->
  nth_error w i = Some x -> p x = true ->
  (forall j x', j < i -> nth_error w j = Some x' -> p x' = false) ->
  scan p message function (v ++ w) result =
  domain_failure function (message (List.length v + i)) (VScalar x) result.
Proof.
  intros Hv Hx Hp Hbefore.
  apply scan_fail; try assumption.
  - rewrite nth_error_app2 by lia.
    replace (List.length v + i - List.length v) with i by lia. exact Hx.
  - intros j x' Hj Hx'.
    destruct (Nat.lt_ge_cases j (List.length v)) as [Hlt|Hge].
    + rewrite nth_error_app1 in Hx' by assumption. exact (Hv j x' Hx').
    + rewrite nth_error_app2 in Hx' by assumption.
      apply (Hbefore (j - List.length v) x'); [lia | exact Hx'].
Qed.

End ScanRelations.

(** X7.  [check_finite] subsumes [check_not_nan]: a vector accepted by
    [check_finite] is accepted by [check_not_nan], and where [check_not_nan]
    fails at index [i], [check_finite] fails at an index not after [i]. *)
Theorem check_finite_subsumes_check_not_nan {C : Collaborators}
    function name result (y : Vector) :
  (snd (check_finite function y name result) = Ret true ->
   snd (check_not_nan function y name result) = Ret true) /\
  (forall i x, nth_error y i = Some x -> is_nan x = true ->
   exists j x', j <= i /\ nth_error y j = Some x' /\
     is_finite x' = false /\
     check_finite function y name result =
     domain_failure function (finite_message name j) (VScalar x') result).
Proof.
  rewrite check_finite_scan, check_not_nan_scan. split.
  - rewrite !scan_true_iff. intros H i x Hx.
    apply is_finite_not_nan. apply negb_false_iff. exact (H i x Hx).
  - intros i x Hx Hn.
    destruct (scan_cases (fun x => negb (is_finite x)) (finite_message name)
                function y result)
      as [Hpass|(j & x' & Hx' & Hp & Hbefore & Hfail)].
    + exfalso.
      assert (Hs : snd (scan (fun x => negb (is_finite x)) (finite_message name)
                          function y result) = Ret true)
        by (rewrite Hpass; reflexivity).
      pose proof (proj1 (scan_true_iff _ _ _ _ _) Hs) as Hs_all; clear Hs; rename Hs_all into Hs. specialize (Hs i x Hx).
      apply negb_false_iff in Hs. apply is_finite_not_nan in Hs. congruence.
    + exists j, x'. split; [|split; [exact Hx'|split; [|exact Hfail]]].
      * destruct (Nat.le_gt_cases j i) as [Hle|Hgt]; [exact Hle|].
        exfalso. specialize (Hbefore i x Hgt Hx).
        apply negb_false_iff in Hbefore. apply is_finite_not_nan in Hbefore.
        congruence.
      * apply negb_true_iff. exact Hp.
Qed.

(** X8.  The two overloads of [check_not_nan] agree on one-column data: a
    vector is accepted by the vector overload exactly when the matrix of that
    one column is accepted by the matrix overload, and both fail at the same
    entry, reported as [name[i]] by one and as [name[i,0]] by the other. *)
Theorem check_not_nan_overloads_agree {C : Collaborators}
    function name result (v : Vector) :
  (snd (check_not_nan function v name result) = Ret true <->
   snd (check_not_nan_matrix function (column v) name result) = Ret true) /\
  (forall i x, nth_error v i = Some x -> is_nan x = true ->
   (forall j x', j < i -> nth_error v j = Some x' -> is_nan x' = false) ->
   check_not_nan function v name result =
     domain_failure function (not_nan_message name i) (VScalar x) result /\
   check_not_nan_matrix function (column v) name result =
     domain_failure function (not_nan_matrix_message name i 0) (VScalar x)
       result).
Proof.
  assert (Hfail : forall i x, nth_error v i = Some x -> is_nan x = true ->
     (forall j x', j < i -> nth_error v j = Some x' -> is_nan x' = false) ->
     check_not_nan function v name result =
       domain_failure function (not_nan_message name i) (VScalar x) result /\
     check_not_nan_matrix function (column v) name result =
       domain_failure function (not_nan_matrix_message name i 0) (VScalar x)
         result).
  { intros i x Hx Hn Hbefore. split.
    - rewrite check_not_nan_scan. apply scan_fail; assumption.
    - destruct (nth_error_column v i x Hx) as (Hi & Hc & Hxi).
      rewrite <- Hxi. apply check_not_nan_matrix_fail.
      unfold first_nan. repeat split; try assumption.
      + rewrite Hxi. exact Hn.
      + intros i' j' Hi' Hj' Hlt. simpl in Hj'.
        assert (j' = 0) as -> by lia.
        assert (Hlt' : i' < i) by lia.
        apply (Hbefore i' _ Hlt'). apply column_nth_error. exact Hi'. }
  split; [|exact Hfail].
  rewrite check_not_nan_scan.
  destruct (scan_cases is_nan (not_nan_message name) function v result)
    as [Hpass|(i & x & Hx & Hn & Hbefore & Hf)].
  - assert (Hs : snd (scan is_nan (not_nan_message name) function v result)
                 = Ret true) by (rewrite Hpass; reflexivity).
    split; [|intros _; exact Hs]. intros _.
    rewrite check_not_nan_matrix_pass; [reflexivity|].
    intros i j Hi Hj. simpl in Hj. assert (j = 0) as -> by lia.
    pose proof (proj1 (scan_true_iff _ _ _ _ _) Hs) as Hs_all; clear Hs; rename Hs_all into Hs.
    apply (Hs i). apply column_nth_error. exact Hi.
  - destruct (Hfail i x Hx Hn Hbefore) as [_ Hm].
    rewrite Hf, Hm. split; intros H; failure_is_not_success H.
Qed.

(** X9.  Scanning a concatenation: [check_not_nan] and [check_finite] accept
    [v ++ w] exactly when they accept [v] and [w]; a failure in [v] is
    reported as it is for [v] alone and hides [w]; and when [v] is accepted,
    a failure in [w] is reported with its index shifted by the length of
    [v]. *)
Theorem scans_of_concatenation {C : Collaborators}
    function name result (v w : Vector) :
  (snd (check_not_nan function (v ++ w) name result) = Ret true <->
   snd (check_not_nan function v name result) = Ret true /\
   snd (check_not_nan function w name result) = Ret true) /\
  (snd (check_finite function (v ++ w) name result) = Ret true <->
   snd (check_finite function v name result) = Ret true /\
   snd (check_finite function w name result) = Ret true) /\
  (snd (check_not_nan function v name result) <> Ret true ->
   check_not_nan function (v ++ w) name result =
   check_not_nan function v name result) /\
  (snd (check_finite function v name result) <> Ret true ->
   check_finite function (v ++ w) name result =
   check_finite function v name result) /\
  (forall i x, snd (check_not_nan function v name result) = Ret true ->
   nth_error w i = Some x -> is_nan x = true ->
   (forall j x', j < i -> nth_error w j = Some x' -> is_nan x' = false) ->
   check_not_nan function (v ++ w) name result =
   domain_failure function (not_nan_message name (List.length v + i))
     (VScalar x) result) /\
  (forall i x, snd (check_finite function v name result) = Ret true ->
   nth_error w i = Some x -> is_finite x = false ->
   (forall j x', j < i -> nth_error w j = Some x' -> is_finite x' = true) ->
   check_finite function (v ++ w) name result =
   domain_failure function (finite_message name (List.length v + i))
     (VScalar x) result).
Proof.
  rewrite !check_not_nan_scan, !check_finite_scan.
  assert (Hhide : forall p message,
            snd (scan p message function v result) <> Ret true ->
            scan p message function (v ++ w) result =
            scan p message function v result).
  { intros p message Hs.
    destruct (scan_cases p message function v result)
      as [Hpass|(i & x & Hx & Hp & Hbefore & Hf)].
    - exfalso. apply Hs. rewrite Hpass. reflexivity.
    - rewrite Hf. apply scan_app_left; assumption. }
  split; [|split; [|split; [|split; [|split]]]].
  - rewrite !scan_true_iff. apply scan_app_pass.
  - rewrite !scan_true_iff. apply scan_app_pass.
  - apply Hhide.
  - apply Hhide.
  - intros i x Hv Hx Hn Hbefore. pose proof (proj1 (scan_true_iff _ _ _ _ _) Hv) as Hv_all; clear Hv; rename Hv_all into Hv.
    apply scan_app_right; assumption.
  - intros i x Hv Hx Hn Hbefore. pose proof (proj1 (scan_true_iff _ _ _ _ _) Hv) as Hv_all; clear Hv; rename Hv_all into Hv.
    apply scan_app_right; try assumption.
    + rewrite Hn. reflexivity.
    + intros j x' Hj Hx'. rewrite (Hbefore j x' Hj Hx'). reflexivity.
Qed.

(** ** What check_symmetric looks at *)

Section SymmetricFootprint.

Context {C : Collaborators}.

Lemma asymmetric_at_agree y y' m n :
  coeffRef y' m n = coeffRef y m n -> coeffRef y' n m = coeffRef y n m ->
  asymmetric_at y' m n = asymmetric_at y m n.
Proof. intros H1 H2. unfold asymmetric_at. rewrite H1, H2. reflexivity. Qed.

End SymmetricFootprint.

(** X10.  [check_symmetric] looks only at the entries off the diagonal of
    the leading block of as many columns as there are rows: two matrices
    with the same number of rows (and no fewer columns than rows) that agree
    on these entries are treated identically, whatever their diagonals and,
    for wide matrices, their remaining columns hold. *)
Theorem check_symmetric_footprint {C : Collaborators}
    function y y' name result :
  rows y <= cols y -> rows y' = rows y -> rows y' <= cols y' ->
  (forall m n, m < rows y -> n < rows y -> m <> n ->
     coeffRef y' m n = coeffRef y m n) ->
  check_symmetric function y' name result =
  check_symmetric function y name result.
Proof.
  intros Hle Hrows Hle' Hagree.
  assert (Hat : forall m n, m < n -> n < rows y ->
            asymmetric_at y' m n = asymmetric_at y m n).
  { intros m n H1 H2. apply asymmetric_at_agree; apply Hagree; lia. }
  destruct (symmetric_or_first_asymmetric y) as [Hsym|(m & n & Hfirst)].
  - rewrite (check_symmetric_pass function y name result Hle Hsym).
    apply check_symmetric_pass; [assumption|].
    intros m n H1 H2. rewrite Hrows in H2. rewrite Hat by assumption.
    apply Hsym; assumption.
  - rewrite (check_symmetric_fail function y name result m n Hle Hfirst).
    destruct Hfirst as (H1 & H2 & H3 & H4).
    rewrite <- (Hagree m n) by lia. rewrite <- (Hagree n m) by lia.
    apply check_symmetric_fail; [assumption|].
    unfold first_asymmetric. rewrite Hrows.
    split; [assumption|]. split; [assumption|].
    split; [rewrite Hat by assumption; exact H3|].
    intros m' n' H5 H6 H7. rewrite Hat by assumption. apply H4; assumption.
Qed.

(** A 2x3 matrix with another diagonal and a third column is reported like
    [[1, 2], [3, 1]]. *)
Lemma check_symmetric_footprint_witness :
  @check_symmetric returning_nan "f" wide_2x3 "y" null =
  @check_symmetric returning_nan "f" asymmetric_2x2 "y" null.
Proof.
  apply (@check_symmetric_footprint returning_nan "f" asymmetric_2x2
           wide_2x3 "y" null).
  - simpl. lia.
  - reflexivity.
  - simpl. lia.
  - intros m n Hm Hn Hne. simpl in Hm, Hn.
    destruct m as [|[|m]]; destruct n as [|[|n]]; try lia; reflexivity.
Defined.

(** ** The symmetry test and binary64 arithmetic *)

Lemma SFabs_binary_round_aux prec emax mx ex lx :
  SFabs (binary_round_aux prec emax true mx ex lx) =
  SFabs (binary_round_aux prec emax false mx ex lx).
Proof.
  unfold binary_round_aux.
  destruct (shr_fexp prec emax mx ex lx) as [mrs' e'].
  destruct (shr_fexp prec emax _ e' loc_Exact) as [mrs'' e''].
  destruct (shr_m mrs''); try reflexivity.
  destruct (e'' <=? emax - prec)%Z; reflexivity.
Qed.

Lemma SFabs_binary_round prec emax mx ex :
  SFabs (binary_round prec emax true mx ex) =
  SFabs (binary_round prec emax false mx ex).
Proof.
  unfold binary_round.
  destruct (shl_align mx ex _) as [mz ez].
  apply SFabs_binary_round_aux.
Qed.

Lemma SFabs_binary_normalize_opp prec emax m e :
  SFabs (binary_normalize prec emax (- m) e false) =
  SFabs (binary_normalize prec emax m e false).
Proof.
  destruct m as [|p|p]; simpl; try reflexivity.
  - apply SFabs_binary_round.
  - symmetry. apply SFabs_binary_round.
Qed.

Lemma SFabs_SFsub_comm prec emax x y :
  SFabs (SFsub prec emax x y) = SFabs (SFsub prec emax y x).
Proof.
  destruct x as [sx|sx| |sx mx ex], y as [sy|sy| |sy my ey]; simpl;
    try reflexivity;
    try (destruct sx, sy; reflexivity).
  rewrite (Z.min_comm ey ex).
  rewrite <- SFabs_binary_normalize_opp. f_equal. f_equal. lia.
Qed.

(** [x - x] is zero, or NaN when [x] is infinite or NaN. *)
Lemma SFsub_diag prec emax x :
  SFsub prec emax x x = S754_nan \/ SFsub prec emax x x = S754_zero false.
Proof.
  destruct x as [sx|sx| |sx mx ex]; simpl.
  - right. destruct sx; reflexivity.
  - left. destruct sx; reflexivity.
  - left. reflexivity.
  - right. rewrite Z.sub_diag. reflexivity.
Qed.

(** [fabs(a - b)] and [fabs(b - a)] are the same number. *)
Lemma abs_sub_comm (a b : float) : abs (a - b) = abs (b - a).
Proof.
  rewrite <- (SF2Prim_Prim2SF (abs (a - b))), <- (SF2Prim_Prim2SF (abs (b - a))).
  rewrite !FloatAxioms.abs_spec, !FloatAxioms.sub_spec. unfold SF64sub.
  rewrite SFabs_SFsub_comm. reflexivity.
Qed.

(** No non-negative tolerance is below [fabs(a - a)]. *)
Lemma ltb_abs_sub_diag (t a : float) :
  (0 <=? t)%float = true -> (t <? abs (a - a))%float = false.
Proof.
  intros Ht.
  rewrite FloatAxioms.ltb_spec, FloatAxioms.abs_spec, FloatAxioms.sub_spec.
  unfold SF64sub. rewrite FloatAxioms.leb_spec in Ht.
  destruct (SFsub_diag prec emax (Prim2SF a)) as [-> | ->]; simpl.
  - unfold SFltb. destruct (Prim2SF t); reflexivity.
  - change (S754_zero false) with (Prim2SF 0) in *.
    revert Ht. unfold SFltb, SFleb.
    destruct (Prim2SF t) as [s|s| |s m e]; simpl; try reflexivity;
      destruct s; simpl; congruence.
Qed.

Section SymmetryAndArithmetic.

Context {C : Collaborators}.

Lemma asymmetric_at_swap y m n : asymmetric_at y n m = asymmetric_at y m n.
Proof. unfold asymmetric_at. rewrite abs_sub_comm. reflexivity. Qed.


Lemma check_symmetric_true_iff function y name result :
  rows y <= cols y ->
  snd (check_symmetric function y name result) = Ret true <->
  symmetric_within_tolerance y.
Proof.
  intros Hle. split.
  - intros Hs. destruct (symmetric_or_first_asymmetric y)
      as [Hsym|(m & n & Hfirst)]; [assumption|].
    rewrite (check_symmetric_fail function y name result m n Hle Hfirst) in Hs.
    failure_is_not_success Hs.
  - intros Hsym. rewrite check_symmetric_pass by assumption. reflexivity.
Qed.

End SymmetryAndArithmetic.

(** X11.  A matrix whose entries above the diagonal are equal, bit for bit,
    to their mirror images passes [check_symmetric] under every non-negative
    tolerance, whatever those entries are: for finite entries the difference
    is zero, and for infinite or NaN entries it is NaN, which the test does
    not reject. *)
Theorem check_symmetric_accepts_mirrored {C : Collaborators}
    function y name result :
  rows y <= cols y ->
  (0 <=? CONSTRAINT_TOLERANCE)%float = true ->
  (forall m n, m < n -> n < rows y -> coeffRef y m n = coeffRef y n m) ->
  check_symmetric function y name result = ret true.
Proof.
  intros Hle Htol Hmirror. apply check_symmetric_pass; [assumption|].
  intros m n H1 H2. unfold asymmetric_at. rewrite (Hmirror m n H1 H2).
  apply ltb_abs_sub_diag. exact Htol.
Qed.

Lemma check_symmetric_accepts_mirrored_witness :
  @check_symmetric throwing "f" mirrored_with_infinities "y" null = ret true.
Proof.
  apply (@check_symmetric_accepts_mirrored throwing "f"
           mirrored_with_infinities "y" null).
  - simpl. lia.
  - reflexivity.
  - intros m n H1 H2. simpl in H2.
    destruct m as [|[|m]]; destruct n as [|[|n]]; try lia; reflexivity.
Defined.



(** ** The role of the tolerance *)

Lemma SFcompare_le_lt_trans a b c :
  SFcompare a b = Some Lt \/ SFcompare a b = Some Eq ->
  SFcompare b c = Some Lt -> SFcompare a c = Some Lt.
Proof.
  destruct a as [sa|sa| |sa ma ea], b as [sb|sb| |sb mb eb],
           c as [sc|sc| |sc mc ec]; simpl;
    try (intros [H|H]; discriminate);
    try discriminate;
    try (destruct sa, sb, sc; simpl; intros [H|H] H'; congruence).
  all: try (destruct sa, sb; simpl; intros [H|H] H'; congruence).
  all: try (destruct sb, sc; simpl; intros [H|H] H'; congruence).
  all: try (destruct sa, sc; simpl; intros [H|H] H'; congruence).
  destruct sa, sb, sc; simpl; intros [H|H] H'; try congruence;
    change (PosDef.Pos.compare_cont Eq) with Pos.compare in *;
    destruct (Z.compare_spec ea eb), (Z.compare_spec eb ec),
      (Z.compare_spec ea ec);
    try discriminate; try reflexivity; try lia; subst;
    destruct (Pos.compare_spec ma mb), (Pos.compare_spec mb mc),
      (Pos.compare_spec ma mc);
    simpl in *; try discriminate; try reflexivity; try lia.
Qed.

Lemma SFcompare_le_le_trans a b c :
  SFcompare a b = Some Lt \/ SFcompare a b = Some Eq ->
  SFcompare b c = Some Lt \/ SFcompare b c = Some Eq ->
  SFcompare a c = Some Lt \/ SFcompare a c = Some Eq.
Proof.
  intros [Hab|Hab] [Hbc|Hbc];
  destruct a as [sa|sa| |sa ma ea], b as [sb|sb| |sb mb eb],
           c as [sc|sc| |sc mc ec]; simpl in *;
    try discriminate; auto;
    repeat match goal with s : bool |- _ => destruct s end;
    simpl in *; try discriminate; auto;
    change (PosDef.Pos.compare_cont Eq) with Pos.compare in *;
    destruct (Z.compare_spec ea eb), (Z.compare_spec eb ec),
      (Z.compare_spec ea ec);
    try discriminate; auto; try lia; subst;
    destruct (Pos.compare_spec ma mb), (Pos.compare_spec mb mc),
      (Pos.compare_spec ma mc);
    simpl in *; try discriminate; auto; try lia.
Qed.

(** [a <= b < c] gives [a < c], and [a <= b <= c] gives [a <= c]. *)
Lemma leb_ltb_trans (a b c : float) :
  (a <=? b)%float = true -> (b <? c)%float = true -> (a <? c)%float = true.
Proof.
  rewrite FloatAxioms.leb_spec, !FloatAxioms.ltb_spec. unfold SFleb, SFltb.
  intros Hab Hbc.
  rewrite (SFcompare_le_lt_trans (Prim2SF a) (Prim2SF b) (Prim2SF c));
    [reflexivity| |].
  - destruct (SFcompare (Prim2SF a) (Prim2SF b)) as [[| |]|]; auto; discriminate.
  - destruct (SFcompare (Prim2SF b) (Prim2SF c)) as [[| |]|];
      try discriminate; reflexivity.
Qed.

Lemma leb_trans (a b c : float) :
  (a <=? b)%float = true -> (b <=? c)%float = true -> (a <=? c)%float = true.
Proof.
  rewrite !FloatAxioms.leb_spec. unfold SFleb. intros Hab Hbc.
  destruct (SFcompare_le_le_trans (Prim2SF a) (Prim2SF b) (Prim2SF c))
    as [-> | ->]; try reflexivity.
  - destruct (SFcompare (Prim2SF a) (Prim2SF b)) as [[| |]|]; auto; discriminate.
  - destruct (SFcompare (Prim2SF b) (Prim2SF c)) as [[| |]|]; auto; discriminate.
Qed.

(** X13.  A larger tolerance loosens the symmetry test and tightens the
    positive-definiteness test: a square matrix that passes
    [check_symmetric] under one tolerance passes it under every tolerance at
    least as large, and a square matrix that passes [check_pos_definite]
    under a tolerance passes it under every tolerance at most as large. *)
Theorem tolerance_monotone {C : Collaborators} t function y name result :
  (CONSTRAINT_TOLERANCE <=? t)%float = true ->
  rows y = cols y ->
  (snd (@check_symmetric C function y name result) = Ret true ->
   snd (@check_symmetric (with_tolerance C t) function y name result)
   = Ret true) /\
  (snd (@check_pos_definite (with_tolerance C t) function y name result)
   = Ret true ->
   snd (@check_pos_definite C function y name result) = Ret true).
Proof.
  intros Htol Hsq. split.
  - rewrite !check_symmetric_true_iff by lia.
    intros Hsym m n H1 H2. specialize (Hsym m n H1 H2).
    unfold asymmetric_at in *. simpl.
    destruct (t <? abs (coeffRef y m n - coeffRef y n m))%float eqn:Ht;
      [|reflexivity].
    rewrite (leb_ltb_trans _ _ _ Htol Ht) in Hsym. discriminate.
  - rewrite !check_pos_definite_true_iff by lia.
    unfold passes_pos_definite, no_factor_within_tolerance. simpl.
    assert (Hmono : forall x, (x <=? t)%float = false ->
              (x <=? CONSTRAINT_TOLERANCE)%float = false).
    { intros x Hx.
      destruct (x <=? CONSTRAINT_TOLERANCE)%float eqn:Hle; [|reflexivity].
      rewrite (leb_trans _ _ _ Hle Htol) in Hx. discriminate. }
    intros [H1 H2]. split.
    + intros Hr. apply Hmono, H1, Hr.
    + intros k Hk. apply Hmono, H2, Hk.
Qed.

(** [[1, 2], [2, 1]] passes the symmetry test at 1E-8, hence at 0.5. *)
Lemma tolerance_monotone_witness :
  snd (@check_symmetric (with_tolerance throwing 0.5%float) "f"
         symmetric_2x2 "y" null) = Ret true.
Proof.
  apply (@tolerance_monotone throwing 0.5%float "f" symmetric_2x2 "y" null);
    reflexivity.
Defined.

(** ** The output slot is only ever written *)

Section WriteOnly.

Context {C : Collaborators}.

Lemma forget_stores_bind {A B} (m m' : M A) (k k' : A -> M B) :
  forget_stores m = m' ->
  (forall a, forget_stores (k a) = k' a) ->
  forget_stores (bind m k) = bind m' k'.
Proof.
  intros <- Hk. destruct m as [t [a | | f]]; unfold bind, forget_stores;
    simpl; try reflexivity.
  rewrite <- (Hk a). unfold forget_stores, without_stores. simpl.
  rewrite filter_app. reflexivity.
Qed.

Lemma forget_stores_for_steps (body body' : nat -> M (option bool)) steps i :
  (forall j, forget_stores (body j) = body' j) ->
  forget_stores (for_steps steps i body) = for_steps steps i body'.
Proof.
  intros Hbody. revert i. induction steps as [|steps IH]; intros i; simpl.
  - reflexivity.
  - apply forget_stores_bind; [apply Hbody|].
    intros [b|]; [reflexivity | apply IH].
Qed.

Lemma forget_stores_coeff y i j : forget_stores (coeff y i j) = coeff y i j.
Proof. unfold coeff. destruct ((i <? rows y) && (j <? cols y)); reflexivity. Qed.

Lemma forget_stores_vcoeff (y : Vector) i :
  forget_stores (vcoeff y i) = vcoeff y i.
Proof. unfold vcoeff. destruct (nth_error y i); reflexivity. Qed.

Variable function : string.
Variable result : pointer.

Lemma forget_stores_domain_failure message val :
  forget_stores (domain_failure function message val result) =
  domain_failure function message val null.
Proof.
  rewrite !domain_failure_run.
  destruct (policy function message val); destruct result; reflexivity.
Qed.

Lemma forget_stores_leave message val :
  forget_stores (b <- domain_failure function message val result ;;
                 ret (Some b)) =
  (b <- domain_failure function message val null ;; ret (Some b)).
Proof.
  apply forget_stores_bind; [apply forget_stores_domain_failure|].
  intros b. reflexivity.
Qed.

Lemma forget_stores_after_loop (m m' : M (option bool)) (k k' : M bool) :
  forget_stores m = m' -> forget_stores k = k' ->
  forget_stores (r <- m ;; match r with Some b => ret b | None => k end) =
  (r <- m' ;; match r with Some b => ret b | None => k' end).
Proof.
  intros Hm Hk. apply forget_stores_bind; [exact Hm|].
  intros [b|]; [reflexivity | exact Hk].
Qed.

Lemma forget_stores_then (m m' k k' : M bool) :
  forget_stores m = m' -> forget_stores k = k' ->
  forget_stores (b <- m ;; if negb b then ret false else k) =
  (b <- m' ;; if negb b then ret false else k').
Proof.
  intros Hm Hk. apply forget_stores_bind; [exact Hm|].
  intros [|]; [exact Hk | reflexivity].
Qed.

Lemma forget_stores_check_size_match i j :
  forget_stores (check_size_match function i j result) =
  check_size_match function i j null.
Proof.
  unfold check_size_match. destruct (negb (i =? j));
    [apply forget_stores_domain_failure | reflexivity].
Qed.

Lemma forget_stores_check_positive x name :
  forget_stores (check_positive function x name result) =
  check_positive function x name null.
Proof.
  unfold check_positive. destruct (negb (0 <? x));
    [apply forget_stores_domain_failure | reflexivity].
Qed.

Lemma forget_stores_check_symmetric y name :
  forget_stores (check_symmetric function y name result) =
  check_symmetric function y name null.
Proof.
  unfold check_symmetric. destruct (rows y =? 1); [reflexivity|].
  apply forget_stores_after_loop; [|reflexivity].
  apply forget_stores_for_steps. intros m.
  apply forget_stores_for_steps. intros n. unfold symmetric_step.
  apply forget_stores_bind; [apply forget_stores_coeff|]. intros ymn.
  apply forget_stores_bind; [apply forget_stores_coeff|]. intros ynm.
  destruct (CONSTRAINT_TOLERANCE <? abs (ymn - ynm))%float; [|reflexivity].
  apply forget_stores_bind; [apply forget_stores_coeff|]. intros ynm'.
  apply forget_stores_bind; [apply forget_stores_coeff|]. intros ymn'.
  apply forget_stores_leave.
Qed.

Lemma forget_stores_check_pos_definite y name :
  forget_stores (check_pos_definite function y name result) =
  check_pos_definite function y name null.
Proof.
  unfold check_pos_definite.
  apply forget_stores_bind.
  - destruct (rows y =? 1); [|reflexivity].
    apply forget_stores_bind; [apply forget_stores_coeff|].
    intros y00. reflexivity.
  - intros [|].
    + apply forget_stores_bind; [apply forget_stores_coeff|]. intros y00.
      apply forget_stores_domain_failure.
    + destruct (existsb _ _); [|reflexivity].
      apply forget_stores_bind; [apply forget_stores_coeff|]. intros y00.
      apply forget_stores_domain_failure.
Qed.

Lemma forget_stores_shape_checks y label (k k' : M bool) :
  forget_stores k = k' ->
  forget_stores (shape_checks function y label result k) =
  shape_checks function y label null k'.
Proof.
  intros Hk. unfold shape_checks.
  apply forget_stores_then; [apply forget_stores_check_size_match|].
  apply forget_stores_then; [apply forget_stores_check_positive|].
  apply forget_stores_then; [apply forget_stores_check_symmetric|].
  exact Hk.
Qed.

Lemma forget_stores_check_corr_matrix y name :
  forget_stores (check_corr_matrix function y name result) =
  check_corr_matrix function y name null.
Proof.
  rewrite !check_corr_matrix_shape. apply forget_stores_shape_checks.
  apply forget_stores_after_loop; [|apply forget_stores_check_pos_definite].
  apply forget_stores_for_steps. intros k. unfold unit_diagonal_step.
  apply forget_stores_bind; [apply forget_stores_coeff|]. intros ykk.
  destruct (CONSTRAINT_TOLERANCE <? abs (ykk - 1))%float; [|reflexivity].
  apply forget_stores_bind; [apply forget_stores_coeff|]. intros ykk'.
  apply forget_stores_leave.
Qed.

Lemma forget_stores_scan p message (y : Vector) :
  forget_stores (scan p message function y result) =
  scan p message function y null.
Proof.
  unfold scan. apply forget_stores_after_loop; [|reflexivity].
  apply forget_stores_for_steps. intros i. unfold scan_step.
  apply forget_stores_bind; [apply forget_stores_vcoeff|]. intros yi.
  destruct (p yi); [|reflexivity].
  apply forget_stores_bind; [apply forget_stores_vcoeff|]. intros yi'.
  apply forget_stores_leave.
Qed.

Lemma forget_stores_check_not_nan_matrix y name :
  forget_stores (check_not_nan_matrix function y name result) =
  check_not_nan_matrix function y name null.
Proof.
  unfold check_not_nan_matrix. apply forget_stores_after_loop; [|reflexivity].
  apply forget_stores_for_steps. intros i.
  apply forget_stores_for_steps. intros j. unfold not_nan_matrix_step.
  apply forget_stores_bind; [apply forget_stores_coeff|]. intros yij.
  destruct (is_nan yij); [|reflexivity].
  apply forget_stores_bind; [apply forget_stores_coeff|]. intros yij'.
  apply forget_stores_leave.
Qed.

End WriteOnly.

(** X14.  The output slot is only written, never consulted: apart from the
    write itself, each of the nine predicates does with a slot exactly what
    it does with the null pointer - the same result, the same message with
    the same value - on every input and under every policy. *)
Theorem slot_is_write_only {C : Collaborators}
    function name result i j y v :
  Forall2 (fun m m0 => forget_stores m = m0)
    (layer_calls function name result i j y v)
    (layer_calls function name null i j y v).
Proof.
  unfold layer_calls. repeat constructor.
  - apply forget_stores_check_size_match.
  - apply forget_stores_check_symmetric.
  - apply forget_stores_check_pos_definite.
  - rewrite !check_cov_matrix_shape. apply forget_stores_shape_checks.
    apply forget_stores_check_pos_definite.
  - rewrite !check_cov_matrix_Sigma_shape.
    apply forget_stores_shape_checks. reflexivity.
  - apply forget_stores_check_corr_matrix.
  - rewrite !check_not_nan_scan. apply forget_stores_scan.
  - apply forget_stores_check_not_nan_matrix.
  - rewrite !check_finite_scan. apply forget_stores_scan.
Qed.
